(** * ARIA routing rules: matcher, channel handlers and mobile router

    A shallow embedding of the routing code of the ARIA repository:

    - [checkConditions] and the rule handlers of
      [backend/src/routes/routes.ts];
    - the six channel handlers of [backend/src/routes/webhooks.ts];
    - the key handlers of [backend/src/routes/providers.ts];
    - [RoutingService.routeResponse] and [RoutingService.matchesRule] of
      [ARIA_iOS.swift].

    Strings are sequences of code units below 256 (the Latin-1 block), on
    which JavaScript's [toLowerCase] and Swift's [lowercased()] are the
    same length-preserving map. *)

From Stdlib Require Import String Ascii List Bool Arith ZArith Lia.
From Stdlib Require Import Numbers.DecimalString.
From Stdlib Require Import Sorted Permutation.
Import ListNotations.

Local Set Warnings "-register-all".

Local Open Scope string_scope.
Local Open Scope list_scope.
Local Open Scope nat_scope.

(* ================================================================== *)
(** * Part I: definitions *)
(* ================================================================== *)

(** ** String primitives of the two runtimes *)

Module Str.

(** [String.prototype.toLowerCase] on one code unit of the Latin-1 block:
    A-Z and the accented capitals U+00C0..U+00DE (except the
    multiplication sign U+00D7) move up by 32. *)
Definition toLowerCaseUnit (c : ascii) : ascii :=
  let n := nat_of_ascii c in
  if ((65 <=? n) && (n <=? 90))
     || ((192 <=? n) && (n <=? 222) && negb (n =? 215))
  then ascii_of_nat (n + 32)
  else c.

Fixpoint toLowerCase (s : string) : string :=
  match s with
  | EmptyString => EmptyString
  | String c s' => String (toLowerCaseUnit c) (toLowerCase s')
  end.

(** [s.startsWith(search)] *)
Fixpoint startsWith (s search : string) {struct search} : bool :=
  match search with
  | EmptyString => true
  | String c search' =>
      match s with
      | EmptyString => false
      | String d s' => Ascii.eqb c d && startsWith s' search'
      end
  end.

(** [s.includes(search)]: [search] occurs at some position of [s]. *)
Fixpoint includes (s search : string) : bool :=
  startsWith s search
  || match s with
     | EmptyString => false
     | String _ s' => includes s' search
     end.

(** [s.split(sep)] for a one-unit separator: never the empty list, the
    empty string gives one empty piece. *)
Fixpoint split (sep : ascii) (s : string) : list string :=
  match s with
  | EmptyString => [EmptyString]
  | String c s' =>
      if Ascii.eqb c sep then EmptyString :: split sep s'
      else match split sep s' with
           | [] => [String c EmptyString]
           | piece :: pieces => String c piece :: pieces
           end
  end.

(** [pieces.join(sep)] *)
Fixpoint join (sep : ascii) (pieces : list string) : string :=
  match pieces with
  | [] => EmptyString
  | [p] => p
  | p :: ps => p ++ String sep (join sep ps)
  end%string.

(** ECMAScript WhiteSpace and LineTerminator code units below 256:
    TAB, LF, VT, FF, CR, SP and NBSP. *)
Definition isWhiteSpace (c : ascii) : bool :=
  let n := nat_of_ascii c in
  ((9 <=? n) && (n <=? 13)) || (n =? 32) || (n =? 160).

(** Foundation's [CharacterSet.whitespaces] below 256: general category
    Zs and CHARACTER TABULATION, that is TAB, SP and NBSP. *)
Definition isSwiftWhitespace (c : ascii) : bool :=
  let n := nat_of_ascii c in
  (n =? 9) || (n =? 32) || (n =? 160).

Section Trim.
Variable ws : ascii -> bool.

Fixpoint trimStartBy (s : string) : string :=
  match s with
  | EmptyString => EmptyString
  | String c s' => if ws c then trimStartBy s' else s
  end.

Fixpoint trimEndBy (s : string) : string :=
  match s with
  | EmptyString => EmptyString
  | String c s' =>
      match trimEndBy s' with
      | EmptyString => if ws c then EmptyString else String c EmptyString
      | t => String c t
      end
  end.

Definition trimBy (s : string) : string := trimEndBy (trimStartBy s).
End Trim.

(** [s.trim()] *)
Definition trim : string -> string := trimBy isWhiteSpace.

(** [s.slice(0, n)]: the first [n] code units, all of [s] when shorter. *)
Fixpoint slice0 (n : nat) (s : string) : string :=
  match n, s with
  | S n', String c s' => String c (slice0 n' s')
  | _, _ => EmptyString
  end.

(** A string of [n] copies of one code unit (to build test inputs). *)
Fixpoint replicate (n : nat) (c : ascii) : string :=
  match n with
  | O => EmptyString
  | S n' => String c (replicate n' c)
  end.

(** Decimal rendering of a number in a template literal. *)
Definition ofNat (n : nat) : string :=
  NilZero.string_of_uint (Nat.to_uint n).

(** *** Declarative counterparts, used to state what the primitives
    compute *)

Definition IsPrefix (p s : string) : Prop :=
  exists rest, s = (p ++ rest)%string.

Definition IsSubstring (p s : string) : Prop :=
  exists before after, s = (before ++ p ++ after)%string.

Fixpoint AllUnits (P : ascii -> bool) (s : string) : bool :=
  match s with
  | EmptyString => true
  | String c s' => P c && AllUnits P s'
  end.

Definition firstUnit (s : string) : option ascii :=
  match s with
  | EmptyString => None
  | String c _ => Some c
  end.

Fixpoint lastUnit (s : string) : option ascii :=
  match s with
  | EmptyString => None
  | String c EmptyString => Some c
  | String _ s' => lastUnit s'
  end.

Definition unitIs (P : ascii -> bool) (o : option ascii) : bool :=
  match o with
  | Some c => P c
  | None => false
  end.

(** [pieces] is the comma-style splitting of [s]: at least one piece, no
    piece holds the separator, and joining them back gives [s]. *)
Definition SplitOn (sep : ascii) (s : string) (pieces : list string) : Prop :=
  pieces <> []
  /\ Forall (fun p => AllUnits (fun c => negb (Ascii.eqb c sep)) p = true)
            pieces
  /\ join sep pieces = s.

(** [core] is [s] without the white space around it. *)
Definition TrimOf (ws : ascii -> bool) (s core : string) : Prop :=
  exists l r,
    s = (l ++ core ++ r)%string
    /\ AllUnits ws l = true /\ AllUnits ws r = true
    /\ unitIs ws (firstUnit core) = false
    /\ unitIs ws (lastUnit core) = false.

(** Two strings that differ at most in letter case. *)
Definition sameIgnoringCase (s t : string) : Prop :=
  toLowerCase s = toLowerCase t.

End Str.

(** ** JavaScript values, exceptions and the handler monad *)

Module Js.
Import Str.

(** A request body after JSON decoding, and what property access on it
    can give. Numbers are kept to the integers. *)
Inductive Value :=
| VUndefined
| VNull
| VBool (b : bool)
| VNumber (z : Z)
| VString (s : string)
| VArray (items : list Value)
| VObject (fields : list (string * Value)).

Fixpoint lookup (k : string) (fields : list (string * Value)) : Value :=
  match fields with
  | [] => VUndefined
  | (k', v) :: rest => if (k =? k')%string then v else lookup k rest
  end.

(** [v?.k]: [undefined] on [null] and [undefined], the own property of an
    object, and [undefined] for a name that no primitive or array has. *)
Definition optProp (v : Value) (k : string) : Value :=
  match v with
  | VObject fields => lookup k fields
  | _ => VUndefined
  end.

Definition truthy (v : Value) : bool :=
  match v with
  | VUndefined | VNull => false
  | VBool b => b
  | VNumber z => negb (z =? 0)%Z
  | VString s => negb (s =? "")%string
  | VArray _ | VObject _ => true
  end.

(** [a || b] *)
Definition orElse (a b : Value) : Value := if truthy a then a else b.

(** One issue of a [ZodError]: the offending field and the issue code. *)
Record ZodIssue := mkIssue { path : list string; code : string }.

(** What a [throw] carries. [ZodError] and every other [Error] have a
    message; anything else can be thrown too. *)
Inductive Exn :=
| ZodError (issues : list ZodIssue)
| JsError (message : string)
| Thrown (v : Value).

Definition instanceofError (e : Exn) : bool :=
  match e with Thrown _ => false | _ => true end.

Record HttpRequest := mkHttpRequest {
  url : string;
  method : string;
  headers : list (string * string);
  payload : option string
}.

(** How a [fetch] ends: a response with its status and its body text
    (reading the body can fail too), or a rejection. *)
Inductive FetchOutcome :=
| Responded (status : nat) (text : Exn + string)
| Rejected (e : Exn).

(** What the handlers take from their platform and libraries: zod's
    [url()] and [email()] checks, [JSON.stringify], the message zod
    derives from its issues, and the network, which answers a request
    knowing the requests sent before it. *)
Record Runtime := mkRuntime {
  isUrl : string -> bool;
  isEmail : string -> bool;
  JSON_stringify : Value -> string;
  zodMessage : list ZodIssue -> string;
  network : list HttpRequest -> HttpRequest -> FetchOutcome
}.

Definition message (rt : Runtime) (e : Exn) : string :=
  match e with
  | ZodError issues => zodMessage rt issues
  | JsError m => m
  | Thrown _ => ""
  end.

(** [response.ok] *)
Definition ok (status : nat) : bool := (200 <=? status) && (status <=? 299).

(** *** zod schemas *)

Definition Parsed (A : Type) : Type := list ZodIssue + A.

Definition zBoth {A B} (a : Parsed A) (b : Parsed B) : Parsed (A * B) :=
  match a, b with
  | inr x, inr y => inr (x, y)
  | inl i, inr _ => inl i
  | inr _, inl j => inl j
  | inl i, inl j => inl (i ++ j)
  end.

Definition zMap {A B} (f : A -> B) (a : Parsed A) : Parsed B :=
  match a with
  | inl i => inl i
  | inr x => inr (f x)
  end.

Definition zString (p : string) (v : Value) : Parsed string :=
  match v with
  | VString s => inr s
  | _ => inl [mkIssue [p] "invalid_type"]
  end.

Definition zStringThat (check : string -> bool) (p : string) (v : Value)
  : Parsed string :=
  match v with
  | VString s => if check s then inr s else inl [mkIssue [p] "invalid_string"]
  | _ => inl [mkIssue [p] "invalid_type"]
  end.

Definition zEnum (options : list string) (p : string) (v : Value)
  : Parsed string :=
  match v with
  | VString s =>
      if existsb (String.eqb s) options then inr s
      else inl [mkIssue [p] "invalid_enum_value"]
  | _ => inl [mkIssue [p] "invalid_type"]
  end.

Definition zOptional {A} (schema : string -> Value -> Parsed A)
    (p : string) (v : Value) : Parsed (option A) :=
  match v with
  | VUndefined => inr None
  | _ => zMap Some (schema p v)
  end.

Definition zDefault {A} (d : A) (schema : string -> Value -> Parsed A)
    (p : string) (v : Value) : Parsed A :=
  match v with
  | VUndefined => inr d
  | _ => schema p v
  end.

Definition zAny (p : string) (v : Value) : Parsed Value := inr v.

(** [z.record(z.string())]: an object all of whose values are strings. *)
Fixpoint zRecordEntries (p : string) (fields : list (string * Value))
  : Parsed (list (string * string)) :=
  match fields with
  | [] => inr []
  | (k, v) :: rest =>
      zMap (fun '(s, entries) => (k, s) :: entries)
        (zBoth (match v with
                | VString s => inr s
                | _ => inl [mkIssue [p; k] "invalid_type"]
                end)
               (zRecordEntries p rest))
  end.

Definition zRecordOfString (p : string) (v : Value)
  : Parsed (list (string * string)) :=
  match v with
  | VObject fields => zRecordEntries p fields
  | _ => inl [mkIssue [p] "invalid_type"]
  end.

(** [z.object({...})]: anything but an object is one issue at the root;
    the fields of an object are checked each on its own. *)
Definition zObject {A} (v : Value)
    (shape : list (string * Value) -> Parsed A) : Parsed A :=
  match v with
  | VObject fields => shape fields
  | _ => inl [mkIssue [] "invalid_type"]
  end.

(** *** The store and the handler monad *)

(** A row of [message_logs] without the columns the database fills in
    ([id], [createdAt]). *)
Record MessageLog := mkMessageLog {
  userId : string;
  channel : string;
  destination : string;
  content : string;
  status : string;
  error : option string
}.

(** One element of [conditions: Array<{ type: string; value: string }>]. *)
Record Condition := mkCondition { type : string; value : string }.

(** A row of [routing_rules]: [conditions] as the matcher reads it,
    [actions] as the JSON column it is, the two dates as instants in
    milliseconds. *)
Record RoutingRule := mkRoutingRule {
  ruleId : string;
  ruleUserId : string;
  name : string;
  conditions : list Condition;
  actions : Value;
  priority : Z;
  isEnabled : bool;
  createdAt : nat;
  updatedAt : nat
}.

(** Everything a handler can change: the two tables and the requests
    sent out so far. *)
Record World := mkWorld {
  routingRule : list RoutingRule;
  messageLog : list MessageLog;
  sent : list HttpRequest
}.

Inductive Completion (A : Type) :=
| Normal (a : A)
| Abrupt (e : Exn).
Arguments Normal {A} a.
Arguments Abrupt {A} e.

(** A computation of an [async] handler: from a world to how it
    completes and the world it leaves. Effects made before a [throw]
    stay. *)
Definition M (A : Type) : Type := World -> Completion A * World.

Definition ret {A} (a : A) : M A := fun w => (Normal a, w).

Definition throw {A} (e : Exn) : M A := fun w => (Abrupt e, w).

Definition bind {A B} (m : M A) (k : A -> M B) : M B :=
  fun w =>
    match m w with
    | (Normal a, w') => k a w'
    | (Abrupt e, w') => (Abrupt e, w')
    end.

(** [try { body } catch (error) { handler }] *)
Definition tryCatch {A} (body : M A) (handler : Exn -> M A) : M A :=
  fun w =>
    match body w with
    | (Normal a, w') => (Normal a, w')
    | (Abrupt e, w') => handler e w'
    end.

(** [schema.parse(body)] *)
Definition parse {A} (result : Parsed A) : M A :=
  match result with
  | inr a => ret a
  | inl issues => throw (ZodError issues)
  end.

(** [await fetch(...)]: the request goes out, the network answers. *)
Definition fetch (rt : Runtime) (r : HttpRequest)
  : M (nat * (Exn + string)) :=
  fun w =>
    let w' := mkWorld (routingRule w) (messageLog w) (sent w ++ [r]) in
    match network rt (sent w) r with
    | Responded st text => (Normal (st, text), w')
    | Rejected e => (Abrupt e, w')
    end.

(** [await response.text()] *)
Definition text (body : Exn + string) : M string :=
  match body with
  | inr s => ret s
  | inl e => throw e
  end.

(** [await prisma.messageLog.create({ data })]. The client checks the
    data against the model first: [destination] and [content] are
    [String] columns, and anything else in them is refused with a
    validation error before a row is written. *)
Definition messageLog_create (user channel' : string)
    (destination' content' : Value) (status' : string)
    (error' : option string) : M unit :=
  match destination', content' with
  | VString d, VString c =>
      fun w =>
        (Normal tt,
         mkWorld (routingRule w)
                 (messageLog w
                  ++ [mkMessageLog user channel' d c status' error'])
                 (sent w))
  | _, _ => throw (JsError "PrismaClientValidationError")
  end.

(** [content?.slice(0, 1000)] on a value of any type: [undefined] on
    [null] and [undefined]; strings and arrays have a [slice]; on
    anything else the call is a [TypeError]. *)
Definition optSlice1000 (v : Value) : M Value :=
  match v with
  | VUndefined | VNull => ret VUndefined
  | VString s => ret (VString (slice0 1000 s))
  | VArray items => ret (VArray (firstn 1000 items))
  | _ => throw (JsError "content.slice is not a function")
  end.

Declare Scope js_scope.
Delimit Scope js_scope with js.
Notation "x <- m ;; k" := (bind m (fun x => k))
  (at level 61, m at next level, right associativity) : js_scope.
Notation "' pat <- m ;; k" := (bind m (fun pat => k))
  (at level 61, pat pattern, m at next level, right associativity) : js_scope.
Notation "m ;; k" := (bind m (fun _ => k))
  (at level 61, right associativity) : js_scope.

(** What a handler reads of a request: the verified [request.user.id],
    the [:id] of the path and the decoded body. *)
Record Request := mkRequest {
  user : string;
  paramId : string;
  body : Value
}.

(** The reply of a handler: the status code and the JSON sent. *)
Record Reply := mkReply { statusCode : nat; sentBody : Value }.

(** The server's [setErrorHandler]: a handler that throws is answered
    with status 500 (no [statusCode] is set on the errors met here). *)
Definition errorHandler (rt : Runtime) (e : Exn) : Reply :=
  mkReply 500
    (VObject [("error", VBool true);
              ("message", VString (message rt e));
              ("code", VString "INTERNAL_ERROR")]).

(** One request served: the handler's reply, or the error handler's. *)
Definition serve (rt : Runtime) (handler : M Reply) (w : World)
  : Reply * World :=
  match handler w with
  | (Normal r, w') => (r, w')
  | (Abrupt e, w') => (errorHandler rt e, w')
  end.

End Js.

(** ** Backend: the rule matcher and the test handler of [routes.ts] *)

Module Routes.
Import Str Js.

(** The [for ... of] loop of [checkConditions], over the lower-cased
    content computed once before the loop. A [case] whose test fails
    returns [false]; every other path goes on with the next condition. *)
Fixpoint checkConditionsFrom (lowerContent : string)
    (conditions : list Condition) : bool :=
  match conditions with
  | [] => true
  | condition :: rest =>
      if (type condition =? "contains")%string then
        if negb (includes lowerContent (toLowerCase (value condition)))
        then false
        else checkConditionsFrom lowerContent rest
      else if (type condition =? "starts_with")%string then
        if negb (startsWith lowerContent (toLowerCase (value condition)))
        then false
        else checkConditionsFrom lowerContent rest
      else if (type condition =? "keyword")%string then
        let keywords :=
          map (fun k => toLowerCase (trim k)) (split "," (value condition)) in
        if negb (existsb (fun k => includes lowerContent k) keywords)
        then false
        else checkConditionsFrom lowerContent rest
      else checkConditionsFrom lowerContent rest
  end.

Definition checkConditions (content : string)
    (conditions : list Condition) : bool :=
  let lowerContent := toLowerCase content in
  checkConditionsFrom lowerContent conditions.

(** The matcher on a single condition: what one condition "evaluates to". *)
Definition evaluate (text : string) (c : Condition) : bool :=
  checkConditions text [c].

(** The three condition types with a [case] of their own. *)
Definition hasCase (ty : string) : bool :=
  (ty =? "contains")%string || (ty =? "starts_with")%string
  || (ty =? "keyword")%string.

(** [const { content } = request.body]: destructuring [null] or
    [undefined] is a [TypeError]. *)
Definition destructure (v : Value) (k : string) : M Value :=
  match v with
  | VUndefined =>
      throw (JsError ("Cannot destructure property '" ++ k
                      ++ "' of 'request.body' as it is undefined."))
  | VNull =>
      throw (JsError ("Cannot destructure property '" ++ k
                      ++ "' of 'request.body' as it is null."))
  | _ => ret (optProp v k)
  end.

(** [checkConditions] as the handler calls it, on a [content] that was
    only cast to [string]: [content.toLowerCase()] is a [TypeError] on
    anything that is not one, of [undefined] and [null] for the read of
    the property, of the other values for the call. *)
Definition checkConditionsOn (content : Value)
    (conditions' : list Condition) : M bool :=
  match content with
  | VString s => ret (checkConditions s conditions')
  | VUndefined =>
      throw (JsError
               "Cannot read properties of undefined (reading 'toLowerCase')")
  | VNull =>
      throw (JsError "Cannot read properties of null (reading 'toLowerCase')")
  | _ => throw (JsError "content.toLowerCase is not a function")
  end.

(** The [where: { id, userId }] clause. *)
Definition whereIdUser (id userId' : string) (r : RoutingRule) : bool :=
  (ruleId r =? id)%string && (ruleUserId r =? userId')%string.

(** [prisma.routingRule.findFirst({ where: { id, userId } })] *)
Definition routingRule_findFirst (id userId' : string)
  : M (option RoutingRule) :=
  fun w => (Normal (find (whereIdUser id userId') (routingRule w)), w).

(** [app.post('/:id/test', ...)] *)
Definition testRoute (request : Request) : M Reply :=
  (let id := paramId request in
   content <- destructure (body request) "content" ;;
   route <- routingRule_findFirst id (user request) ;;
   match route with
   | None =>
       ret (mkReply 404 (VObject [("error", VBool true);
                                  ("message", VString "Route not found")]))
   | Some route =>
       matches <- checkConditionsOn content (conditions route) ;;
       ret (mkReply 200
              (VObject [("matches", VBool matches);
                        ("route", VObject [("name", VString (name route));
                                           ("actions", actions route)])]))
   end)%js.

End Routes.

(** ** The condition evaluator and the rule matcher as the specification
    words them (sections 4.1 and 4.2) *)

Module Contract.
Import Str Js.

(** What a condition asks of a text, by its type: [contains], that the
    lower-cased value occurs in the lower-cased text; [starts_with],
    that the lower-cased text begins with it; [keyword], that some token
    of the value split on commas, trimmed of the white space around it
    and lower-cased, occurs in the lower-cased text; [sentiment],
    [time_of_day] and any other type ask nothing. *)
Definition Evaluates (text : string) (c : Condition) : Prop :=
  if (type c =? "contains")%string then
    IsSubstring (toLowerCase (value c)) (toLowerCase text)
  else if (type c =? "starts_with")%string then
    IsPrefix (toLowerCase (value c)) (toLowerCase text)
  else if (type c =? "keyword")%string then
    exists pieces token core,
      SplitOn "," (value c) pieces
      /\ In token pieces
      /\ TrimOf isWhiteSpace token core
      /\ IsSubstring (toLowerCase core) (toLowerCase text)
  else True.

(** A rule matches a text when every condition of its list evaluates to
    true; the empty list matches every text. *)
Definition Matches (text : string) (conditions : list Condition) : Prop :=
  Forall (Evaluates text) conditions.

End Contract.

(** ** Backend: the channel handlers of [webhooks.ts] *)

Module Webhooks.
Import Str Js.

Section Handlers.
Variable rt : Runtime.

(** *** The schemas *)

Definition discordWebhookSchema (v : Value) : Parsed (string * string) :=
  zObject v (fun o =>
    zBoth (zString "content" (lookup "content" o))
          (zStringThat (isUrl rt) "webhookUrl" (lookup "webhookUrl" o))).

Definition telegramSchema (v : Value)
  : Parsed (string * string * string) :=
  zObject v (fun o =>
    zBoth (zBoth (zString "content" (lookup "content" o))
                 (zString "botToken" (lookup "botToken" o)))
          (zString "chatId" (lookup "chatId" o))).

Definition smsSchema (v : Value)
  : Parsed (string * string * option string * option string) :=
  zObject v (fun o =>
    zBoth (zBoth (zBoth (zString "content" (lookup "content" o))
                        (zString "phoneNumber" (lookup "phoneNumber" o)))
                 (zOptional zString "twilioAccountSid"
                    (lookup "twilioAccountSid" o)))
          (zOptional zString "twilioAuthToken"
             (lookup "twilioAuthToken" o))).

Definition emailSchema (v : Value)
  : Parsed (string * string * string * option string) :=
  zObject v (fun o =>
    zBoth (zBoth (zBoth (zStringThat (isEmail rt) "to" (lookup "to" o))
                        (zString "subject" (lookup "subject" o)))
                 (zString "body" (lookup "body" o)))
          (zOptional (zEnum ["sendgrid"; "ses"; "smtp"]) "provider"
             (lookup "provider" o))).

Definition slackSchema (v : Value) : Parsed (string * string) :=
  zObject v (fun o =>
    zBoth (zString "content" (lookup "content" o))
          (zStringThat (isUrl rt) "webhookUrl" (lookup "webhookUrl" o))).

Definition genericWebhookSchema (v : Value)
  : Parsed (string * string * option (list (string * string)) * Value) :=
  zObject v (fun o =>
    zBoth (zBoth (zBoth (zStringThat (isUrl rt) "url" (lookup "url" o))
                        (zDefault "POST"
                           (zEnum ["GET"; "POST"; "PUT"; "PATCH"; "DELETE"])
                           "method" (lookup "method" o)))
                 (zOptional zRecordOfString "headers" (lookup "headers" o)))
          (zAny "body" (lookup "body" o))).

(** *** Pieces the handlers share *)

Definition jsonHeaders : list (string * string) :=
  [("Content-Type", "application/json")].

(** One property written to an object literal: the value of a key that
    is there already is replaced where it stands, a new key goes to the
    end (keys that are array indices, which an object lists first,
    aside). *)
Fixpoint assign (o : list (string * string)) (k v : string)
  : list (string * string) :=
  match o with
  | [] => [(k, v)]
  | (k', v') :: rest =>
      if (k =? k')%string then (k', v) :: rest
      else (k', v') :: assign rest k v
  end.

(** [{ ...o, ...extra }]: the properties of [extra] written to [o] in
    their order. *)
Definition spread (o extra : list (string * string))
  : list (string * string) :=
  fold_left (fun acc kv => assign acc (fst kv) (snd kv)) extra o.

(** [error instanceof Error ? error.message : fallback] *)
Definition messageOr (fallback : string) (e : Exn) : string :=
  if instanceofError e then message rt e else fallback.

Definition failure (fallback : string) (e : Exn) : Reply :=
  mkReply 500 (VObject [("error", VBool true);
                        ("message", VString (messageOr fallback e))]).

(** [if (!response.ok) throw new Error(...)] *)
Definition throwUnlessOk (label : string) (st : nat) : M unit :=
  if negb (ok st) then throw (JsError (label ++ ofNat st)%string) else ret tt.

(** *** The handlers *)

(** [app.post('/discord', ...)] *)
Definition discord (request : Request) : M Reply :=
  tryCatch
    ('(content, webhookUrl) <- parse (discordWebhookSchema (body request)) ;;
     '(st, _) <- fetch rt
        (mkHttpRequest webhookUrl "POST" jsonHeaders
           (Some (JSON_stringify rt
                    (VObject [("content", VString content);
                              ("username", VString "ARIA Assistant")])))) ;;
     throwUnlessOk "Discord webhook failed: " st ;;
     messageLog_create (user request) "discord" (VString webhookUrl)
       (VString (slice0 1000 content)) "sent" None ;;
     ret (mkReply 200 (VObject [("success", VBool true)])))%js
    (fun error =>
       (let destination :=
          orElse (optProp (body request) "webhookUrl") (VString "") in
        sliced <- optSlice1000 (optProp (body request) "content") ;;
        messageLog_create (user request) "discord" destination
          (orElse sliced (VString "")) "failed"
          (Some (messageOr "Unknown error" error)) ;;
        ret (failure "Failed to send to Discord" error))%js).

(** [app.post('/telegram', ...)] *)
Definition telegram (request : Request) : M Reply :=
  tryCatch
    ('(content, botToken, chatId) <- parse (telegramSchema (body request)) ;;
     '(st, _) <- fetch rt
        (mkHttpRequest
           ("https://api.telegram.org/bot" ++ botToken ++ "/sendMessage")
           "POST" jsonHeaders
           (Some (JSON_stringify rt
                    (VObject [("chat_id", VString chatId);
                              ("text", VString content);
                              ("parse_mode", VString "Markdown")])))) ;;
     throwUnlessOk "Telegram API failed: " st ;;
     messageLog_create (user request) "telegram" (VString chatId)
       (VString (slice0 1000 content)) "sent" None ;;
     ret (mkReply 200 (VObject [("success", VBool true)])))%js
    (fun error =>
       (let destination :=
          orElse (optProp (body request) "chatId") (VString "") in
        sliced <- optSlice1000 (optProp (body request) "content") ;;
        messageLog_create (user request) "telegram" destination
          (orElse sliced (VString "")) "failed"
          (Some (messageOr "Unknown error" error)) ;;
        ret (failure "Failed to send to Telegram" error))%js).

(** [app.post('/sms', ...)]: no provider call yet, the message is
    logged as sent. *)
Definition sms (request : Request) : M Reply :=
  tryCatch
    ('(content, phoneNumber, _, _) <- parse (smsSchema (body request)) ;;
     messageLog_create (user request) "sms" (VString phoneNumber)
       (VString (slice0 1000 content)) "sent" None ;;
     ret (mkReply 200
            (VObject [("success", VBool true);
                      ("note", VString "Twilio integration required")])))%js
    (fun error => ret (failure "Failed to send SMS" error)).

(** [app.post('/email', ...)]: no provider call yet either; the entry
    keeps the subject. *)
Definition email (request : Request) : M Reply :=
  tryCatch
    ('(to, subject, _, _) <- parse (emailSchema (body request)) ;;
     messageLog_create (user request) "email" (VString to)
       (VString subject) "sent" None ;;
     ret (mkReply 200
            (VObject [("success", VBool true);
                      ("note",
                       VString "Email provider integration required")])))%js
    (fun error => ret (failure "Failed to send email" error)).

(** [app.post('/slack', ...)] *)
Definition slack (request : Request) : M Reply :=
  tryCatch
    ('(content, webhookUrl) <- parse (slackSchema (body request)) ;;
     '(st, _) <- fetch rt
        (mkHttpRequest webhookUrl "POST" jsonHeaders
           (Some (JSON_stringify rt
                    (VObject [("text", VString content)])))) ;;
     throwUnlessOk "Slack webhook failed: " st ;;
     messageLog_create (user request) "slack" (VString webhookUrl)
       (VString (slice0 1000 content)) "sent" None ;;
     ret (mkReply 200 (VObject [("success", VBool true)])))%js
    (fun error =>
       (let destination :=
          orElse (optProp (body request) "webhookUrl") (VString "") in
        sliced <- optSlice1000 (optProp (body request) "content") ;;
        messageLog_create (user request) "slack" destination
          (orElse sliced (VString "")) "failed"
          (Some (messageOr "Unknown error" error)) ;;
        ret (failure "Failed to send to Slack" error))%js).

(** [JSON.stringify(body)?.slice(0, 1000) || ''], where
    [JSON.stringify(undefined)] is [undefined]. *)
Definition stringifiedPrefix (v : Value) : string :=
  match v with
  | VUndefined => ""
  | _ => slice0 1000 (JSON_stringify rt v)
  end.

(** The request of the generic route: the caller's headers are spread
    over the content type, a falsy body is not sent. *)
Definition genericRequest (url' method' : string)
    (headers' : option (list (string * string))) (body' : Value)
  : HttpRequest :=
  mkHttpRequest url' method'
    (spread jsonHeaders match headers' with
                        | Some h => h
                        | None => []
                        end)
    (if truthy body' then Some (JSON_stringify rt body') else None).

(** [app.post('/custom', ...)]: an entry is written once a response is
    there. *)
Definition custom (request : Request) : M Reply :=
  tryCatch
    ('(url', method', headers', body') <-
        parse (genericWebhookSchema (body request)) ;;
     '(st, responseText) <- fetch rt
        (genericRequest url' method' headers' body') ;;
     responseBody <- text responseText ;;
     messageLog_create (user request) "webhook" (VString url')
       (VString (stringifiedPrefix body'))
       (if ok st then "sent" else "failed")
       (if ok st then None else Some ("HTTP " ++ ofNat st)%string) ;;
     ret (mkReply 200
            (VObject [("success", VBool (ok st));
                      ("status", VNumber (Z.of_nat st));
                      ("response",
                       VString (slice0 1000 responseBody))])))%js
    (fun error => ret (failure "Failed to send webhook" error)).

(** *** The six routes of the plugin *)

Inductive Endpoint := Discord | Telegram | Sms | Email | Slack | Custom.

Definition handler (e : Endpoint) : Request -> M Reply :=
  match e with
  | Discord => discord
  | Telegram => telegram
  | Sms => sms
  | Email => email
  | Slack => slack
  | Custom => custom
  end.

Definition accepted {A} (r : Parsed A) : bool :=
  match r with inr _ => true | inl _ => false end.

(** Does the body pass the schema of the route? *)
Definition validates (e : Endpoint) (v : Value) : bool :=
  match e with
  | Discord => accepted (discordWebhookSchema v)
  | Telegram => accepted (telegramSchema v)
  | Sms => accepted (smsSchema v)
  | Email => accepted (emailSchema v)
  | Slack => accepted (slackSchema v)
  | Custom => accepted (genericWebhookSchema v)
  end.

(** The issues zod reports on the body, none when it passes. *)
Definition issuesOf {A} (r : Parsed A) : list ZodIssue :=
  match r with inr _ => [] | inl issues => issues end.

Definition validationIssues (e : Endpoint) (v : Value) : list ZodIssue :=
  match e with
  | Discord => issuesOf (discordWebhookSchema v)
  | Telegram => issuesOf (telegramSchema v)
  | Sms => issuesOf (smsSchema v)
  | Email => issuesOf (emailSchema v)
  | Slack => issuesOf (slackSchema v)
  | Custom => issuesOf (genericWebhookSchema v)
  end.

(** Requests served one after the other, each in the world the
    earlier ones left. *)
Fixpoint serveAll (requests : list (Endpoint * Request)) (w : World)
  : list Reply * World :=
  match requests with
  | [] => ([], w)
  | (e, request) :: rest =>
      let '(r, w') := serve rt (handler e request) w in
      let '(rs, w'') := serveAll rest w' in
      (r :: rs, w'')
  end.
End Handlers.

(** The route that makes an outbound call, if any: the network channels. *)
Definition callsOut (e : Endpoint) : bool :=
  match e with
  | Sms | Email => false
  | _ => true
  end.

(** The routes whose [catch] writes a [failed] entry. *)
Definition logsFailure (e : Endpoint) : bool :=
  match e with
  | Discord | Telegram | Slack => true
  | _ => false
  end.

Definition channelOf (e : Endpoint) : string :=
  match e with
  | Discord => "discord"
  | Telegram => "telegram"
  | Sms => "sms"
  | Email => "email"
  | Slack => "slack"
  | Custom => "webhook"
  end.

(** The message a route falls back on in its 500 reply. *)
Definition fallbackOf (e : Endpoint) : string :=
  match e with
  | Discord => "Failed to send to Discord"
  | Telegram => "Failed to send to Telegram"
  | Sms => "Failed to send SMS"
  | Email => "Failed to send email"
  | Slack => "Failed to send to Slack"
  | Custom => "Failed to send webhook"
  end.

(** The raw field a [catch] reads the destination from. *)
Definition destinationKey (e : Endpoint) : string :=
  match e with
  | Telegram => "chatId"
  | _ => "webhookUrl"
  end.

(** [v || ''] is a string: [v] is one, or is falsy. *)
Definition storesAsText (v : Value) : bool :=
  match orElse v (VString "") with
  | VString _ => true
  | _ => false
  end.

(** [v?.slice(0, 1000) || ''] is a string: [v] is one, or is
    [null] or [undefined]. *)
Definition slicesToText (v : Value) : bool :=
  match v with
  | VUndefined | VNull | VString _ => true
  | _ => false
  end.

Definition textOf (v : Value) : string :=
  match v with
  | VString s => s
  | _ => ""
  end.

Definition loggedContent (v : Value) : string :=
  match v with
  | VString s => slice0 1000 s
  | _ => ""
  end.

(** The entry a [catch] of the discord, telegram and slack routes writes
    for the error it caught. *)
Definition failedEntry (rt : Runtime) (e : Endpoint) (request : Request)
    (caught : Exn) : MessageLog :=
  mkMessageLog (user request) (channelOf e)
    (textOf (optProp (body request) (destinationKey e)))
    (loggedContent (optProp (body request) "content"))
    "failed" (Some (messageOr rt "Unknown error" caught)).

(** The entry the same routes write after a 2xx answer. *)
Definition sentEntry (e : Endpoint) (request : Request) : MessageLog :=
  mkMessageLog (user request) (channelOf e)
    (textOf (optProp (body request) (destinationKey e)))
    (loggedContent (optProp (body request) "content"))
    "sent" None.

(** The start of the error a route throws on an answer outside 2xx. *)
Definition statusLabel (e : Endpoint) : string :=
  match e with
  | Discord => "Discord webhook failed: "
  | Telegram => "Telegram API failed: "
  | Slack => "Slack webhook failed: "
  | _ => ""
  end.

Definition success : Reply := mkReply 200 (VObject [("success", VBool true)]).

Definition withEntry (w : World) (entry : MessageLog) : World :=
  mkWorld (routingRule w) (messageLog w ++ [entry]) (sent w).

Definition withSent (w : World) (r : HttpRequest) : World :=
  mkWorld (routingRule w) (messageLog w) (sent w ++ [r]).

(** *** A runtime to run the handlers on *)

(** [JSON.stringify] on a string: quotes around it, a backslash before a
    quote or a backslash (control characters are left as they are). *)
Fixpoint escape (s : string) : string :=
  match s with
  | EmptyString => EmptyString
  | String c s' =>
      if Ascii.eqb c "034" || Ascii.eqb c "092"
      then String "092" (String c (escape s'))
      else String c (escape s')
  end.

Definition quote (s : string) : string :=
  String "034" (escape s ++ String "034" EmptyString).

(** [JSON.stringify] on a decoded body: no white space, the fields in
    their order; it is not called on [undefined] itself. *)
Fixpoint stringify (v : Value) : string :=
  match v with
  | VUndefined | VNull => "null"
  | VBool true => "true"
  | VBool false => "false"
  | VNumber z => NilZero.string_of_int (Z.to_int z)
  | VString s => quote s
  | VArray items => "[" ++ String.concat "," (map stringify items) ++ "]"
  | VObject fields =>
      "{" ++ String.concat ","
               (map (fun kv => quote (fst kv) ++ ":" ++ stringify (snd kv))
                    fields)
          ++ "}"
  end%string.

(** zod's pattern for [email()], read without regard to case: a local
    part of letters, digits and the five signs underscore, apostrophe,
    plus, hyphen and dot, whose last unit is no apostrophe and no dot;
    one at sign; one or more labels of letters, digits and hyphens that
    start with a letter or a digit, each followed by a dot; two or more
    letters at the end. The address starts with no dot and has no two
    dots in a row. *)
Definition isLetter (c : ascii) : bool :=
  let n := nat_of_ascii c in
  ((65 <=? n) && (n <=? 90)) || ((97 <=? n) && (n <=? 122)).

Definition isDigit (c : ascii) : bool :=
  let n := nat_of_ascii c in (48 <=? n) && (n <=? 57).

Definition isAlnum (c : ascii) : bool := isLetter c || isDigit c.

Definition isLocalEnd (c : ascii) : bool :=
  isAlnum c || Ascii.eqb c "_" || Ascii.eqb c "+" || Ascii.eqb c "-".

Definition isLocalUnit (c : ascii) : bool :=
  isLocalEnd c || Ascii.eqb c "'" || Ascii.eqb c ".".

Definition isLabel (s : string) : bool :=
  unitIs isAlnum (firstUnit s)
  && AllUnits (fun c => isAlnum c || Ascii.eqb c "-") s.

Definition isTopLevel (s : string) : bool :=
  (2 <=? String.length s) && AllUnits isLetter s.

Fixpoint isDomainFrom (pieces : list string) : bool :=
  match pieces with
  | [] => false
  | [last] => isTopLevel last
  | label :: rest => isLabel label && isDomainFrom rest
  end.

Definition isDomain (s : string) : bool :=
  match split "." s with
  | (_ :: _ :: _) as pieces => isDomainFrom pieces
  | _ => false
  end.

Definition zodEmail (s : string) : bool :=
  negb (startsWith s ".") && negb (includes s "..")
  && match split "@" s with
     | [local; domain] =>
         AllUnits isLocalUnit local && unitIs isLocalEnd (lastUnit local)
         && isDomain domain
     | _ => false
     end.

(** A stand-in for the platform, used to execute the handlers on concrete
    requests: a URL starts with a scheme, an address fits zod's pattern,
    and the message of a [ZodError] lists the codes of its issues. *)
Definition sampleRuntime
    (net : list HttpRequest -> HttpRequest -> FetchOutcome) : Runtime :=
  mkRuntime
    (fun s => startsWith s "http://" || startsWith s "https://")
    zodEmail
    stringify
    (fun issues => String.concat "," (map code issues))
    net.

(** A network on which every [fetch] rejects. *)
Definition unreachable : list HttpRequest -> HttpRequest -> FetchOutcome :=
  fun _ _ => Rejected (JsError "fetch failed").

(** A network on which every [fetch] is answered with one status. *)
Definition answering (st : nat)
  : list HttpRequest -> HttpRequest -> FetchOutcome :=
  fun _ _ => Responded st (inr "").

Definition emptyWorld : World := mkWorld [] [] [].

End Webhooks.

(** ** Backend: the rule handlers of [routes.ts] *)

Module RouteCrud.
Import Str Js Routes.

(** *** The rule schema *)

Definition conditionTypes : list string :=
  ["contains"; "starts_with"; "sentiment"; "time_of_day"; "keyword"].

Definition channels : list string :=
  ["discord"; "telegram"; "sms"; "email"; "slack"; "webhook"].

(** [z.number()]: any number passes (the numbers of the model are the
    integers). *)
Definition zNumber (p : string) (v : Value) : Parsed Z :=
  match v with
  | VNumber z => inr z
  | _ => inl [mkIssue [p] "invalid_type"]
  end.

(** [z.string().min(1)] *)
Definition zStringMin1 (p : string) (v : Value) : Parsed string :=
  match v with
  | VString s =>
      if (s =? "")%string then inl [mkIssue [p] "too_small"] else inr s
  | _ => inl [mkIssue [p] "invalid_type"]
  end.

(** The issues of a nested schema, their paths under the path of the
    value they were found in. *)
Definition zUnder {A} (prefix : list string) (r : Parsed A) : Parsed A :=
  match r with
  | inl issues =>
      inl (map (fun i => mkIssue (prefix ++ path i) (code i)) issues)
  | inr a => inr a
  end.

(** [z.array(item)]: every element is checked, at its index (written
    here in decimal). *)
Fixpoint zItems {A} (item : Value -> Parsed A) (p : string) (i : nat)
    (items : list Value) : Parsed (list A) :=
  match items with
  | [] => inr []
  | v :: rest =>
      zMap (fun al => fst al :: snd al)
        (zBoth (zUnder [p; ofNat i] (item v)) (zItems item p (S i) rest))
  end.

Definition zArray {A} (item : Value -> Parsed A) (p : string) (v : Value)
  : Parsed (list A) :=
  match v with
  | VArray items => zItems item p 0 items
  | _ => inl [mkIssue [p] "invalid_type"]
  end.

Definition conditionSchema (v : Value) : Parsed Condition :=
  zObject v (fun o =>
    zMap (fun tv => mkCondition (fst tv) (snd tv))
      (zBoth (zEnum conditionTypes "type" (lookup "type" o))
             (zString "value" (lookup "value" o)))).

Definition actionSchema (v : Value) : Parsed (string * string) :=
  zObject v (fun o =>
    zBoth (zEnum channels "channel" (lookup "channel" o))
          (zString "destination" (lookup "destination" o))).

(** The parsed actions as the JSON column keeps them. *)
Definition actionsJson (l : list (string * string)) : Value :=
  VArray (map (fun cd => VObject [("channel", VString (fst cd));
                                  ("destination", VString (snd cd))]) l).

(** What [createRouteSchema.parse] gives. *)
Record RouteData := mkRouteData {
  dataName : string;
  dataConditions : list Condition;
  dataActions : list (string * string);
  dataPriority : Z
}.

Definition createRouteSchema (v : Value) : Parsed RouteData :=
  zObject v (fun o =>
    zMap (fun t => mkRouteData (fst (fst (fst t))) (snd (fst (fst t)))
                     (snd (fst t)) (snd t))
      (zBoth (zBoth (zBoth (zStringMin1 "name" (lookup "name" o))
                           (zArray conditionSchema "conditions"
                              (lookup "conditions" o)))
                    (zArray actionSchema "actions" (lookup "actions" o)))
             (zDefault 0%Z zNumber "priority" (lookup "priority" o)))).

(** What [createRouteSchema.partial().parse] gives: every field may be
    missing, and a missing priority stays missing. *)
Record Patch := mkPatch {
  newName : option string;
  newConditions : option (list Condition);
  newActions : option (list (string * string));
  newPriority : option Z
}.

Definition partialRouteSchema (v : Value) : Parsed Patch :=
  zObject v (fun o =>
    zMap (fun t => mkPatch (fst (fst (fst t))) (snd (fst (fst t)))
                     (snd (fst t)) (snd t))
      (zBoth (zBoth (zBoth (zOptional zStringMin1 "name" (lookup "name" o))
                           (zOptional (zArray conditionSchema) "conditions"
                              (lookup "conditions" o)))
                    (zOptional (zArray actionSchema) "actions"
                       (lookup "actions" o)))
             (zOptional zNumber "priority" (lookup "priority" o)))).

(** *** Replies *)

Definition issueJson (i : ZodIssue) : Value :=
  VObject [("code", VString (code i));
           ("path", VArray (map VString (path i)))].

Definition conditionJson (c : Condition) : Value :=
  VObject [("type", VString (type c)); ("value", VString (value c))].

(** A row as it is sent back (without the two dates, which go out as
    ISO strings). *)
Definition ruleJson (r : RoutingRule) : Value :=
  VObject [("id", VString (ruleId r));
           ("userId", VString (ruleUserId r));
           ("name", VString (name r));
           ("conditions", VArray (map conditionJson (conditions r)));
           ("actions", actions r);
           ("priority", VNumber (priority r));
           ("isEnabled", VBool (isEnabled r))].

Definition invalidInput (issues : list ZodIssue) : Reply :=
  mkReply 400 (VObject [("error", VBool true);
                        ("message", VString "Invalid input");
                        ("details", VArray (map issueJson issues))]).

Definition routeNotFound : Reply :=
  mkReply 404 (VObject [("error", VBool true);
                        ("message", VString "Route not found")]).

Definition succeeded : Reply :=
  mkReply 200 (VObject [("success", VBool true)]).

(** [catch (error) { if (error instanceof z.ZodError) return 400;
    throw error; }] *)
Definition catchZodError (error : Exn) : M Reply :=
  match error with
  | ZodError issues => ret (invalidInput issues)
  | _ => throw error
  end.

(** *** The table *)

Definition withRules (w : World) (rules : list RoutingRule) : World :=
  mkWorld rules (messageLog w) (sent w).

(** The [INTEGER] column of [priority] holds a signed 32-bit integer. *)
Definition fitsInteger (z : Z) : bool :=
  (-2147483648 <=? z)%Z && (z <=? 2147483647)%Z.

(** The refusal of a number the column cannot hold. *)
Definition outOfRange (z : Z) : Exn :=
  JsError ("Unable to fit integer value '"
           ++ NilZero.string_of_int (Z.to_int z)
           ++ "' into an INT4 (32-bit signed integer).").

(** The priority of a patch that the column cannot hold, if it has
    one. *)
Definition refusedPriority (d : Patch) : option Z :=
  match newPriority d with
  | Some p => if fitsInteger p then None else Some p
  | None => None
  end.

(** [data: { ...data, updatedAt: new Date() }] written to a row at the
    instant [t]. *)
Definition applyPatch (d : Patch) (t : nat) (r : RoutingRule) : RoutingRule :=
  mkRoutingRule (ruleId r) (ruleUserId r)
    (match newName d with Some n => n | None => name r end)
    (match newConditions d with Some c => c | None => conditions r end)
    (match newActions d with Some a => actionsJson a | None => actions r end)
    (match newPriority d with Some p => p | None => priority r end)
    (isEnabled r) (createdAt r) t.

(** [data: { isEnabled }] written to a row at the instant [t]: the
    client sets [updatedAt], a column without a default, on every
    update. *)
Definition setEnabled (b : bool) (t : nat) (r : RoutingRule) : RoutingRule :=
  mkRoutingRule (ruleId r) (ruleUserId r) (name r) (conditions r)
    (actions r) (priority r) b (createdAt r) t.

(** [orderBy: { priority: 'desc' }], rows of one priority in the order
    of the table. *)
Fixpoint insertByPriority (r : RoutingRule) (l : list RoutingRule)
  : list RoutingRule :=
  match l with
  | [] => [r]
  | x :: l' =>
      if (priority x <=? priority r)%Z then r :: l
      else x :: insertByPriority r l'
  end.

Definition orderByPriorityDesc (l : list RoutingRule) : list RoutingRule :=
  fold_right insertByPriority [] l.

Section Handlers.
Variable rt : Runtime.

(** The id the database gives a new row, and the clock. *)
Variable newId : World -> string.
Variable now : World -> nat.

(** [prisma.routingRule.findMany({ where: { userId }, orderBy })] *)
Definition routingRule_findMany (userId' : string) : M (list RoutingRule) :=
  fun w =>
    (Normal (orderByPriorityDesc
               (filter (fun r => (ruleUserId r =? userId')%string)
                       (routingRule w))),
     w).

(** [prisma.routingRule.create({ data })]: a priority the column cannot
    hold is refused and no row is written; the new row has its dates at
    the instant of the call. *)
Definition routingRule_create (userId' : string) (d : RouteData)
  : M RoutingRule :=
  fun w =>
    if fitsInteger (dataPriority d) then
      let r := mkRoutingRule (newId w) userId' (dataName d) (dataConditions d)
                 (actionsJson (dataActions d)) (dataPriority d) true
                 (now w) (now w) in
      (Normal r, withRules w (routingRule w ++ [r]))
    else (Abrupt (outOfRange (dataPriority d)), w).

(** [prisma.routingRule.updateMany({ where: { id, userId }, data })]:
    the number of rows changed comes back; a priority the column cannot
    hold is refused and no row is changed. *)
Definition routingRule_updateMany (id userId' : string) (d : Patch)
  : M nat :=
  fun w =>
    match refusedPriority d with
    | Some p => (Abrupt (outOfRange p), w)
    | None =>
        (Normal (List.length
                   (filter (whereIdUser id userId') (routingRule w))),
         withRules w
           (map (fun r => if whereIdUser id userId' r
                          then applyPatch d (now w) r else r)
                (routingRule w)))
    end.

(** [prisma.routingRule.update({ where: { id }, data: { isEnabled } })] *)
Definition routingRule_update (id : string) (b : bool) : M unit :=
  fun w =>
    (Normal tt,
     withRules w
       (map (fun r => if (ruleId r =? id)%string
                      then setEnabled b (now w) r else r)
            (routingRule w))).

(** [prisma.routingRule.deleteMany({ where: { id, userId } })] *)
Definition routingRule_deleteMany (id userId' : string) : M unit :=
  fun w =>
    (Normal tt,
     withRules w
       (filter (fun r => negb (whereIdUser id userId' r)) (routingRule w))).

(** [app.get('/', ...)] *)
Definition listRoutes (request : Request) : M Reply :=
  (routes <- routingRule_findMany (user request) ;;
   ret (mkReply 200 (VObject [("routes", VArray (map ruleJson routes))])))%js.

(** [app.post('/', ...)] *)
Definition createRoute (request : Request) : M Reply :=
  tryCatch
    (data <- parse (createRouteSchema (body request)) ;;
     route <- routingRule_create (user request) data ;;
     ret (mkReply 200 (VObject [("route", ruleJson route)])))%js
    catchZodError.

(** [app.put('/:id', ...)] *)
Definition updateRoute (request : Request) : M Reply :=
  tryCatch
    (let id := paramId request in
     data <- parse (partialRouteSchema (body request)) ;;
     count <- routingRule_updateMany id (user request) data ;;
     if count =? 0 then ret routeNotFound else ret succeeded)%js
    catchZodError.

(** [app.patch('/:id/toggle', ...)] *)
Definition toggleRoute (request : Request) : M Reply :=
  (let id := paramId request in
   existingRoute <- routingRule_findFirst id (user request) ;;
   match existingRoute with
   | None => ret routeNotFound
   | Some existingRoute =>
       routingRule_update id (negb (isEnabled existingRoute)) ;;
       ret (mkReply 200
              (VObject [("success", VBool true);
                        ("isEnabled",
                         VBool (negb (isEnabled existingRoute)))]))
   end)%js.

(** [app.delete('/:id', ...)] *)
Definition deleteRoute (request : Request) : M Reply :=
  (let id := paramId request in
   routingRule_deleteMany id (user request) ;;
   ret succeeded)%js.

(** The routes of the plugin, the test route among them. *)
Inductive Operation := List | Create | Update | Toggle | Delete | Test.

Definition operation (o : Operation) : Request -> M Reply :=
  match o with
  | List => listRoutes
  | Create => createRoute
  | Update => updateRoute
  | Toggle => toggleRoute
  | Delete => deleteRoute
  | Test => testRoute
  end.
End Handlers.

(** *** Notions to state what the handlers keep *)

(** The rows of the callers other than [u]. *)
Definition rulesOfOthers (u : string) (w : World) : list RoutingRule :=
  filter (fun r => negb (ruleUserId r =? u)%string) (routingRule w).

(** The row the caller [u] reaches under [id]. *)
Definition ownedRule (id u : string) (w : World) : option RoutingRule :=
  find (whereIdUser id u) (routingRule w).

(** A row as the schema lets it in: a name, and conditions of the five
    types. *)
Definition wellFormed (r : RoutingRule) : Prop :=
  name r <> ""
  /\ Forall (fun c => In (type c) conditionTypes) (conditions r).

(** [id] is a primary key. *)
Definition uniqueIds (w : World) : Prop :=
  NoDup (map ruleId (routingRule w)).

Definition byPriorityDesc (a b : RoutingRule) : Prop :=
  (priority b <= priority a)%Z.

(** A refusal that names at least one issue. *)
Definition Informative {A} (r : Parsed A) : Prop :=
  match r with
  | inl [] => False
  | _ => True
  end.

End RouteCrud.

(** ** Mobile client: [RoutingService] of [ARIA_iOS.swift] *)

Module Mobile.
Import Str.

Inductive ConditionType :=
| contains
| startsWith
| sentiment
| timeOfDay
| keyword.

(** The raw value of a case, the string the backend stores. *)
Definition rawValue (t : ConditionType) : string :=
  match t with
  | contains => "contains"
  | startsWith => "starts_with"
  | sentiment => "sentiment"
  | timeOfDay => "time_of_day"
  | keyword => "keyword"
  end.

Record Condition := mkCondition { type : ConditionType; value : string }.

Inductive Channel := discord | telegram | sms | email | slack | webhook.

Record Action := mkAction { channel : Channel; destination : string }.

Record RoutingRule := mkRoutingRule {
  id : string;
  name : string;
  conditions : list Condition;
  actions : list Action;
  isEnabled : bool
}.

(** [s.split(separator: ",")]: empty subsequences are omitted. *)
Definition splitOmittingEmpty (sep : ascii) (s : string) : list string :=
  filter (fun piece => negb (piece =? "")%string) (split sep s).

(** [s.trimmingCharacters(in: .whitespaces)] *)
Definition trimmingWhitespaces : string -> string := trimBy isSwiftWhitespace.

(** What the client does that can be seen from outside: an action handed
    to [executeAction], and a request handed to [URLSession]. *)
Inductive Event :=
| Executed (action : Action) (content : string)
| Posted (url : string) (json : list (string * string)).

Section Service.
(** The answers of [String.contains], which compares characters and not
    code units and whose answer on an empty argument depends on the
    overload the toolchain picks, and of [URL(string:)] are the
    platform's. *)
Variable stringContains : string -> string -> bool.
Variable URL : string -> bool.

(** The [for condition in rule.conditions] loop of [matchesRule]. *)
Fixpoint matchesConditions (content : string)
    (conditions' : list Condition) : bool :=
  match conditions' with
  | [] => true
  | condition :: rest =>
      match type condition with
      | contains =>
          if negb (stringContains (toLowerCase content)
                     (toLowerCase (value condition)))
          then false
          else matchesConditions content rest
      | keyword =>
          let keywords :=
            map (fun k => toLowerCase (trimmingWhitespaces k))
                (splitOmittingEmpty "," (value condition)) in
          if negb (existsb (fun k => stringContains (toLowerCase content) k)
                           keywords)
          then false
          else matchesConditions content rest
      | _ => matchesConditions content rest
      end
  end.

Definition matchesRule (content : string) (rule : RoutingRule) : bool :=
  matchesConditions content (conditions rule).

(** [guard let url = URL(string:) else { return }], then one POST whose
    failure is dropped by [try?]. *)
Definition sendToDiscord (content webhookURL : string)
    (trace : list Event) : list Event :=
  if URL webhookURL
  then trace ++ [Posted webhookURL [("content", content);
                                    ("username", "ARIA Assistant")]]
  else trace.

(** The five other senders have empty bodies. *)
Definition sendToTelegram (content botToken : string)
    (trace : list Event) : list Event := trace.
Definition sendSMS (content phoneNumber : string)
    (trace : list Event) : list Event := trace.
Definition sendEmail (content address : string)
    (trace : list Event) : list Event := trace.
Definition sendToSlack (content webhookURL : string)
    (trace : list Event) : list Event := trace.
Definition sendToWebhook (content url : string)
    (trace : list Event) : list Event := trace.

Definition executeAction (action : Action) (content : string)
    (trace : list Event) : list Event :=
  let trace := trace ++ [Executed action content] in
  match channel action with
  | discord => sendToDiscord content (destination action) trace
  | telegram => sendToTelegram content (destination action) trace
  | sms => sendSMS content (destination action) trace
  | email => sendEmail content (destination action) trace
  | slack => sendToSlack content (destination action) trace
  | webhook => sendToWebhook content (destination action) trace
  end.

(** [for action in rule.actions { await executeAction(...) }] *)
Fixpoint executeActions (actions' : list Action) (content : string)
    (trace : list Event) : list Event :=
  match actions' with
  | [] => trace
  | action :: rest =>
      executeActions rest content (executeAction action content trace)
  end.

(** [for rule in rules where rule.isEnabled { ... }] *)
Fixpoint routeResponse (response : string) (rules : list RoutingRule)
    (trace : list Event) : list Event :=
  match rules with
  | [] => trace
  | rule :: rest =>
      if isEnabled rule then
        if matchesRule response rule
        then routeResponse response rest
               (executeActions (actions rule) response trace)
        else routeResponse response rest trace
      else routeResponse response rest trace
  end.
End Service.

(** The actions handed to [executeAction], in order. *)
Fixpoint executed (trace : list Event) : list (Action * string) :=
  match trace with
  | [] => []
  | Executed a c :: rest => (a, c) :: executed rest
  | Posted _ _ :: rest => executed rest
  end.

(** What routing is to hand over: for each rule in turn, all its actions
    when it is enabled and matches, nothing otherwise. *)
Definition fanOut (stringContains : string -> string -> bool)
    (response : string) (rules : list RoutingRule)
  : list (Action * string) :=
  flat_map (fun rule =>
              if isEnabled rule && matchesRule stringContains response rule
              then map (fun a => (a, response)) (actions rule)
              else [])
           rules.

(** The rule as the backend would store its conditions. *)
Definition toBackend (c : Condition) : Js.Condition :=
  Js.mkCondition (rawValue (type c)) (value c).

End Mobile.

(** ** Backend: key validation of [providers.ts] *)

Module Providers.
Import Str Js.

Definition validateProviderSchema (v : Value) : Parsed (string * string) :=
  zObject v (fun o =>
    zBoth (zString "provider" (lookup "provider" o))
          (zString "apiKey" (lookup "apiKey" o))).

(** [v.k]: reading a property of [null] or [undefined] is a
    [TypeError]. *)
Definition prop (v : Value) (k : string) : M Value :=
  match v with
  | VUndefined | VNull => throw (JsError "Cannot read properties")
  | _ => ret (optProp v k)
  end.

(** [id.includes('gpt')] on whatever the answer holds as [id]: strings
    search for the text, arrays for an element equal to it, nothing else
    has an [includes] to call. *)
Definition includesGpt (id : Value) : M bool :=
  match id with
  | VString s => ret (includes s "gpt")
  | VArray items =>
      ret (existsb (fun x => match x with
                             | VString t => (t =? "gpt")%string
                             | _ => false
                             end) items)
  | VUndefined | VNull => throw (JsError "Cannot read properties")
  | _ => throw (JsError "m.id.includes is not a function")
  end.

(** [.filter(m => m.id.includes('gpt'))], element after element. *)
Fixpoint filterGpt (items : list Value) : M (list Value) :=
  match items with
  | [] => ret []
  | m :: rest =>
      (id <- prop m "id" ;;
       keep <- includesGpt id ;;
       kept <- filterGpt rest ;;
       ret (if keep then m :: kept else kept))%js
  end.

(** Only an array has the [filter] that is called on [data.data]. *)
Definition asArray (v : Value) : M (list Value) :=
  match v with
  | VArray items => ret items
  | VUndefined | VNull => throw (JsError "Cannot read properties")
  | _ => throw (JsError "data.data.filter is not a function")
  end.

Section Handlers.
Variable rt : Runtime.

(** [JSON.parse], as [response.json()] applies it to the text. *)
Variable JSON_parse : string -> Exn + Value.

(** [await response.json()] *)
Definition json (body : Exn + string) : M Value :=
  (txt <- text body ;;
   match JSON_parse txt with
   | inr v => ret v
   | inl e => throw e
   end)%js.

Definition openaiRequest (apiKey : string) : HttpRequest :=
  mkHttpRequest "https://api.openai.com/v1/models" "GET"
    [("Authorization", ("Bearer " ++ apiKey)%string)] None.

Definition anthropicRequest (apiKey : string) : HttpRequest :=
  mkHttpRequest "https://api.anthropic.com/v1/models" "GET"
    [("x-api-key", apiKey); ("anthropic-version", "2023-06-01")] None.

(** [validateOpenAI]: whatever is thrown inside ends as an invalid key. *)
Definition validateOpenAI (apiKey : string) : M (bool * list Value) :=
  tryCatch
    ('(st, body) <- fetch rt (openaiRequest apiKey) ;;
     if negb (ok st) then ret (false, [])
     else
       data <- json body ;;
       all <- prop data "data" ;;
       items <- asArray all ;;
       kept <- filterGpt items ;;
       let models := firstn 10 (map (fun m => optProp m "id") kept) in
       ret (true, models))%js
    (fun _ => ret (false, [])).

Definition validateAnthropic (apiKey : string) : M (bool * list Value) :=
  tryCatch
    ('(st, _) <- fetch rt (anthropicRequest apiKey) ;;
     if negb (ok st) then ret (false, [])
     else ret (true, [VString "claude-3-5-sonnet"; VString "claude-3-opus"]))%js
    (fun _ => ret (false, [])).

Definition validation (result : bool * list Value) : Reply :=
  mkReply 200 (VObject [("valid", VBool (fst result));
                        ("models", VArray (snd result))]).

Definition unsupportedProvider : Reply :=
  mkReply 400 (VObject [("error", VBool true);
                        ("message", VString "Unsupported provider")]).

(** [app.post('/validate', ...)] *)
Definition validate (request : Request) : M Reply :=
  tryCatch
    ('(provider, apiKey) <- parse (validateProviderSchema (body request)) ;;
     if (provider =? "openai")%string then
       openaiResult <- validateOpenAI apiKey ;;
       ret (validation openaiResult)
     else if (provider =? "anthropic")%string then
       anthropicResult <- validateAnthropic apiKey ;;
       ret (validation anthropicResult)
     else ret unsupportedProvider)%js
    RouteCrud.catchZodError.
End Handlers.

(** An element of the list on which [m.id.includes] can be called: an
    object whose [id] is a string or an array. *)
Definition searchable (m : Value) : bool :=
  match m with
  | VObject fields =>
      match lookup "id" fields with
      | VString _ | VArray _ => true
      | _ => false
      end
  | _ => false
  end.

(** The answer of [m.id.includes('gpt')] where it can be called. *)
Definition namesGpt (m : Value) : bool :=
  match optProp m "id" with
  | VString s => includes s "gpt"
  | VArray items =>
      existsb (fun x => match x with
                        | VString t => (t =? "gpt")%string
                        | _ => false
                        end) items
  | _ => false
  end.

(** The models of a decoded answer that has the expected shape: an
    object with an array under [data], every element of it searchable. *)
Definition listed (data : Value) : option (list Value) :=
  match data with
  | VObject fields =>
      match lookup "data" fields with
      | VArray items => if forallb searchable items then Some items else None
      | _ => None
      end
  | _ => None
  end.

(** The ids of a model list as the service sends it: objects with a
    string [id]. *)
Definition modelList (ids : list string) : Value :=
  VObject [("data",
            VArray (map (fun id => VObject [("id", VString id)]) ids))].

End Providers.

(** ** Backend: the stored keys of [providers.ts] *)

Module ProviderKeys.
Import Str Js.

(** A row of [api_keys] (without the two dates). *)
Record ApiKey := mkApiKey {
  keyId : string;
  keyUserId : string;
  provider : string;
  encryptedKey : string;
  label : string
}.

Definition providers : list string :=
  ["openai"; "anthropic"; "google"; "mistral"; "local"].

Definition addProviderSchema (v : Value)
  : Parsed (string * string * option string) :=
  zObject v (fun o =>
    zBoth (zBoth (zEnum providers "provider" (lookup "provider" o))
                 (zString "apiKey" (lookup "apiKey" o)))
          (zOptional zString "label" (lookup "label" o))).

(** [select: { id, provider, label, createdAt }]: the columns that are
    sent back. *)
Definition selected (k : ApiKey) : Value :=
  VObject [("id", VString (keyId k));
           ("provider", VString (provider k));
           ("label", VString (label k))].

(** [label || provider] *)
Definition labelOr (label' : option string) (provider' : string) : string :=
  match label' with
  | Some l => if (l =? "")%string then provider' else l
  | None => provider'
  end.

(** [app.get('/configured', ...)] *)
Definition configured (request : Request) (table : list ApiKey) : Reply :=
  let rows :=
    filter (fun k => (keyUserId k =? user request)%string) table in
  mkReply 200 (VObject [("providers", VArray (map selected rows))]).

(** [app.post('/', ...)]: the key is stored as it came; only [parse] can
    throw in the [try] block, and its error is answered with 400. [id]
    is the id the database gives the row. *)
Definition addProvider (id : string) (request : Request)
    (table : list ApiKey) : Reply * list ApiKey :=
  match addProviderSchema (body request) with
  | inr (provider', apiKey, label') =>
      let encryptedKey' := apiKey in
      let providerConfig :=
        mkApiKey id (user request) provider' encryptedKey'
          (labelOr label' provider') in
      (mkReply 200 (VObject [("provider", selected providerConfig)]),
       table ++ [providerConfig])
  | inl issues => (RouteCrud.invalidInput issues, table)
  end.

(** [app.delete('/:id', ...)] *)
Definition deleteProvider (request : Request) (table : list ApiKey)
  : Reply * list ApiKey :=
  (RouteCrud.succeeded,
   filter (fun k => negb ((keyId k =? paramId request)%string
                          && (keyUserId k =? user request)%string))
          table).

(** A row with its key blanked. *)
Definition redacted (k : ApiKey) : ApiKey :=
  mkApiKey (keyId k) (keyUserId k) (provider k) "" (label k).

End ProviderKeys.

(** ** Notions to state what the channel handlers and the client keep *)

Module Kept.
Import Str Js Webhooks.

(** An entry as a route writes it for a caller: his id, the channel of
    the route, one of the two statuses, and an error exactly when the
    status is [failed]. *)
Definition entryOf (e : Endpoint) (request : Request) (entry : MessageLog)
  : Prop :=
  userId entry = user request
  /\ channel entry = channelOf e
  /\ ((status entry = "sent" /\ error entry = None)
      \/ (status entry = "failed" /\ error entry <> None)).

End Kept.

Module Observed.
Import Str Mobile.

(** The requests the client handed to [URLSession], in order: the URL
    and the content posted. *)
Fixpoint posted (trace : list Event) : list (string * string) :=
  match trace with
  | [] => []
  | Posted u json :: rest =>
      (u, match json with
          | (_, c) :: _ => c
          | [] => ""
          end) :: posted rest
  | Executed _ _ :: rest => posted rest
  end.

(** The one sender with a body: discord, when the destination is a
    URL. *)
Definition reaches (URL : string -> bool) (a : Action) : bool :=
  match channel a with
  | discord => URL (destination a)
  | _ => false
  end.


(** The two condition types the client's matcher has a case for. *)
Definition hasClientCase (t : ConditionType) : bool :=
  match t with
  | contains | keyword => true
  | _ => false
  end.

End Observed.

(* ================================================================== *)
(** * Part II: properties *)
(* ================================================================== *)

Module StrFacts.
Import Str.

Lemma toLowerCaseUnit_idem c :
  toLowerCaseUnit (toLowerCaseUnit c) = toLowerCaseUnit c.
Proof.
  destruct c as [[] [] [] [] [] [] [] []]; reflexivity.
Qed.

Lemma toLowerCase_idem s : toLowerCase (toLowerCase s) = toLowerCase s.
Proof.
  induction s as [|c s IH]; simpl; [reflexivity|].
  now rewrite toLowerCaseUnit_idem, IH.
Qed.

Lemma toLowerCase_length s : String.length (toLowerCase s) = String.length s.
Proof. induction s; simpl; congruence. Qed.

Lemma startsWith_spec s p : startsWith s p = true <-> IsPrefix p s.
Proof.
  revert s. induction p as [|c p IH]; intros s; simpl.
  - split; [intros _; now exists s | reflexivity].
  - destruct s as [|d s].
    + split; [discriminate | intros [r Hr]; discriminate].
    + rewrite andb_true_iff, IH. split.
      * intros [Hc [r ->]]. apply Ascii.eqb_eq in Hc. subst d.
        now exists r.
      * intros [r Hr]. simpl in Hr. injection Hr as -> ->.
        split; [apply Ascii.eqb_refl | now exists r].
Qed.

Lemma includes_spec s p : includes s p = true <-> IsSubstring p s.
Proof.
  induction s as [|d s IH].
  - simpl. rewrite orb_false_r, startsWith_spec. split.
    + intros [r Hr]. now exists EmptyString, r.
    + intros [b [a H]]. destruct b; [now exists a | discriminate].
  - cbn [includes]. rewrite orb_true_iff, startsWith_spec, IH. split.
    + intros [[r Hr] | [b [a Ha]]].
      * now exists EmptyString, r.
      * exists (String d b), a. simpl. now rewrite Ha.
    + intros [b [a H]]. destruct b as [|e b].
      * left. now exists a.
      * right. simpl in H. injection H as -> ->. now exists b, a.
Qed.

(** *** [split] is the only splitting *)

Lemma join_cons_unit sep c p ps :
  join sep (String c p :: ps) = String c (join sep (p :: ps)).
Proof. destruct ps; reflexivity. Qed.

Lemma split_nonempty sep s : split sep s <> [].
Proof.
  destruct s as [|c s]; simpl; [discriminate|].
  destruct (Ascii.eqb c sep); [discriminate|].
  destruct (split sep s); discriminate.
Qed.

Lemma split_join sep s : join sep (split sep s) = s.
Proof.
  induction s as [|c s IH]; [reflexivity|].
  simpl. destruct (Ascii.eqb_spec c sep) as [->|Hne].
  - pose proof (split_nonempty sep s) as Hn.
    destruct (split sep s) as [|p ps]; [contradiction|].
    simpl in *. now rewrite IH.
  - pose proof (split_nonempty sep s) as Hn.
    destruct (split sep s) as [|p ps]; [contradiction|].
    now rewrite join_cons_unit, IH.
Qed.

Lemma split_pieces sep s :
  Forall (fun p => AllUnits (fun c => negb (Ascii.eqb c sep)) p = true)
         (split sep s).
Proof.
  induction s as [|c s IH]; simpl.
  - now constructor.
  - destruct (Ascii.eqb c sep) eqn:E.
    + now constructor.
    + destruct (split sep s) as [|p ps]; simpl.
      * constructor; [simpl; now rewrite E | constructor].
      * inversion IH; subst. constructor; [simpl; now rewrite E | assumption].
Qed.

Lemma split_spec sep s : SplitOn sep s (split sep s).
Proof.
  repeat split;
    [apply split_nonempty | apply split_pieces | apply split_join].
Qed.

Lemma split_piece_alone sep p :
  AllUnits (fun c => negb (Ascii.eqb c sep)) p = true -> split sep p = [p].
Proof.
  induction p as [|c p IH]; simpl; [reflexivity|].
  intros H. apply andb_true_iff in H as [Hc Hp].
  apply negb_true_iff in Hc. rewrite Hc, (IH Hp). reflexivity.
Qed.

Lemma split_piece_then sep p rest :
  AllUnits (fun c => negb (Ascii.eqb c sep)) p = true ->
  split sep (p ++ String sep rest)%string = p :: split sep rest.
Proof.
  induction p as [|c p IH]; simpl.
  - intros _. now rewrite Ascii.eqb_refl.
  - intros H. apply andb_true_iff in H as [Hc Hp].
    apply negb_true_iff in Hc. rewrite Hc, (IH Hp). reflexivity.
Qed.

Lemma split_unique sep s pieces : SplitOn sep s pieces -> pieces = split sep s.
Proof.
  intros (Hne & Hall & <-). revert Hne.
  induction Hall as [|p ps Hp Hps IH]; [congruence|]. intros _.
  destruct ps as [|q qs].
  - simpl. now rewrite split_piece_alone.
  - change (join sep (p :: q :: qs))
      with (p ++ String sep (join sep (q :: qs)))%string.
    rewrite split_piece_then by assumption.
    rewrite <- IH; [reflexivity | discriminate].
Qed.

(** *** [trimBy] removes exactly the surrounding white space *)

Section TrimFacts.
Variable ws : ascii -> bool.

Lemma trimStartBy_spec s :
  exists l, s = (l ++ trimStartBy ws s)%string
    /\ AllUnits ws l = true
    /\ unitIs ws (firstUnit (trimStartBy ws s)) = false.
Proof.
  induction s as [|c s (l & Hs & Hl & Hf)]; simpl.
  - now exists EmptyString.
  - destruct (ws c) eqn:E.
    + exists (String c l). simpl. rewrite E, Hl. now rewrite <- Hs.
    + exists EmptyString. simpl. now rewrite E.
Qed.

Lemma trimEndBy_spec s :
  exists r, s = (trimEndBy ws s ++ r)%string
    /\ AllUnits ws r = true
    /\ unitIs ws (lastUnit (trimEndBy ws s)) = false.
Proof.
  induction s as [|c s (r & Hs & Hr & Hl)]; simpl.
  - now exists EmptyString.
  - destruct (trimEndBy ws s) as [|d t] eqn:Et.
    + destruct (ws c) eqn:E.
      * exists (String c r). simpl in *. rewrite E, Hr. now subst s.
      * exists r. simpl in *. rewrite E. now subst s.
    + exists r. repeat split; [simpl in Hs |- *; congruence | assumption |].
      exact Hl.
Qed.

Lemma trimEndBy_first s :
  unitIs ws (firstUnit s) = false ->
  unitIs ws (firstUnit (trimEndBy ws s)) = false.
Proof.
  destruct s as [|c s]; simpl; [reflexivity|].
  intros Hc. destruct (trimEndBy ws s); [rewrite Hc|]; simpl; auto.
Qed.

Lemma trimBy_spec s : TrimOf ws s (trimBy ws s).
Proof.
  unfold TrimOf, trimBy.
  destruct (trimStartBy_spec s) as (l & Hs & Hl & Hf).
  destruct (trimEndBy_spec (trimStartBy ws s)) as (r & Ht & Hr & Hlast).
  exists l, r. repeat split; auto.
  - now rewrite <- Ht.
  - now apply trimEndBy_first.
Qed.

Lemma trimStartBy_skip l t :
  AllUnits ws l = true -> trimStartBy ws (l ++ t)%string = trimStartBy ws t.
Proof.
  induction l as [|c l IH]; simpl; [reflexivity|].
  intros H. apply andb_true_iff in H as [Hc Hl]. now rewrite Hc, IH.
Qed.

Lemma trimStartBy_blank r : AllUnits ws r = true -> trimStartBy ws r = "".
Proof.
  induction r as [|c r IH]; simpl; [reflexivity|].
  intros H. apply andb_true_iff in H as [Hc Hr]. now rewrite Hc, IH.
Qed.

Lemma trimEndBy_blank r : AllUnits ws r = true -> trimEndBy ws r = "".
Proof.
  induction r as [|c r IH]; simpl; [reflexivity|].
  intros H. apply andb_true_iff in H as [Hc Hr]. now rewrite IH, Hc.
Qed.

Lemma trimEndBy_keep core r :
  core <> "" -> unitIs ws (lastUnit core) = false ->
  AllUnits ws r = true -> trimEndBy ws (core ++ r)%string = core.
Proof.
  induction core as [|c core IH]; [congruence|].
  intros _ Hlast Hr. simpl. destruct core as [|d core].
  - simpl in *. now rewrite (trimEndBy_blank r Hr), Hlast.
  - rewrite IH; [reflexivity | discriminate | exact Hlast | exact Hr].
Qed.

Lemma trimBy_unique s core : TrimOf ws s core -> core = trimBy ws s.
Proof.
  intros (l & r & -> & Hl & Hr & Hf & Hlast). unfold trimBy.
  rewrite trimStartBy_skip by assumption.
  destruct core as [|c core].
  - simpl. now rewrite trimStartBy_blank.
  - simpl in Hf. cbn [append trimStartBy]. rewrite Hf.
    change (String c (core ++ r)%string) with (String c core ++ r)%string.
    now rewrite trimEndBy_keep.
Qed.
End TrimFacts.

Lemma slice0_length n s : String.length (slice0 n s) <= n.
Proof.
  revert s. induction n as [|n IH]; intros [|c s]; simpl; try lia.
  specialize (IH s). lia.
Qed.

Lemma slice0_short n s : String.length s <= n -> slice0 n s = s.
Proof.
  revert s. induction n as [|n IH]; intros [|c s]; simpl; intros H;
    try reflexivity; try lia.
  rewrite IH; [reflexivity | lia].
Qed.

Lemma replicate_length n c : String.length (replicate n c) = n.
Proof. induction n; simpl; congruence. Qed.

End StrFacts.

(** ** The backend rule matcher *)

Module MatcherFacts.
Import Str StrFacts Js Routes.

Lemma checkConditionsFrom_cons lc c rest :
  checkConditionsFrom lc (c :: rest)
  = checkConditionsFrom lc [c] && checkConditionsFrom lc rest.
Proof.
  cbn [checkConditionsFrom].
  repeat match goal with
         | |- context [if ?b then _ else _] => destruct b
         end; reflexivity.
Qed.

Lemma checkConditions_cons text c rest :
  checkConditions text (c :: rest)
  = evaluate text c && checkConditions text rest.
Proof. apply checkConditionsFrom_cons. Qed.

Lemma checkConditions_forallb text conditions :
  checkConditions text conditions = forallb (evaluate text) conditions.
Proof.
  induction conditions as [|c rest IH]; [reflexivity|].
  rewrite checkConditions_cons, IH. reflexivity.
Qed.

Lemma checkConditions_app text before after :
  checkConditions text (before ++ after)
  = checkConditions text before && checkConditions text after.
Proof. rewrite !checkConditions_forallb. apply forallb_app. Qed.

Lemma evaluate_contains text v :
  evaluate text (mkCondition "contains" v)
  = includes (toLowerCase text) (toLowerCase v).
Proof.
  unfold evaluate, checkConditions. simpl.
  now destruct (includes _ _).
Qed.

Lemma evaluate_starts_with text v :
  evaluate text (mkCondition "starts_with" v)
  = startsWith (toLowerCase text) (toLowerCase v).
Proof.
  unfold evaluate, checkConditions. simpl.
  now destruct (startsWith _ _).
Qed.

Lemma evaluate_keyword text v :
  evaluate text (mkCondition "keyword" v)
  = existsb (fun k => includes (toLowerCase text) k)
      (map (fun k => toLowerCase (trim k)) (split "," v)).
Proof.
  unfold evaluate, checkConditions. simpl.
  now destruct (existsb _ _).
Qed.

Lemma evaluate_other text ty v :
  hasCase ty = false -> evaluate text (mkCondition ty v) = true.
Proof.
  unfold hasCase, evaluate, checkConditions. intros H.
  apply orb_false_iff in H as [H Hk]. apply orb_false_iff in H as [Hc Hs].
  simpl. now rewrite Hc, Hs, Hk.
Qed.

(** The tokens of a [keyword] value: some trimmed, lower-cased piece of
    the comma splitting occurs in the lower-cased text. *)
Lemma keyword_tokens text v :
  existsb (fun k => includes (toLowerCase text) k)
    (map (fun k => toLowerCase (trim k)) (split "," v)) = true
  <-> exists pieces token core,
        SplitOn "," v pieces
        /\ In token pieces
        /\ TrimOf isWhiteSpace token core
        /\ IsSubstring (toLowerCase core) (toLowerCase text).
Proof.
  rewrite existsb_exists. split.
  - intros (k & Hin & Hk). apply in_map_iff in Hin as (token & <- & Hin).
    exists (split "," v), token, (trim token).
    split; [apply split_spec|]. split; [exact Hin|].
    split; [apply trimBy_spec | now apply includes_spec].
  - intros (pieces & token & core & Hsplit & Hin & Htrim & Hsub).
    apply split_unique in Hsplit. apply trimBy_unique in Htrim. subst.
    exists (toLowerCase (trim token)). split.
    + apply in_map_iff. now exists token.
    + now apply includes_spec.
Qed.

(** The matcher on one condition computes what the evaluator of the
    specification asks. *)
Lemma evaluate_evaluates text c :
  evaluate text c = true <-> Contract.Evaluates text c.
Proof.
  destruct c as [ty v]. unfold Contract.Evaluates. cbn [type value].
  destruct (String.eqb_spec ty "contains") as [-> | Hc].
  - rewrite evaluate_contains. apply includes_spec.
  - destruct (String.eqb_spec ty "starts_with") as [-> | Hs].
    + rewrite evaluate_starts_with. apply startsWith_spec.
    + destruct (String.eqb_spec ty "keyword") as [-> | Hk].
      * rewrite evaluate_keyword. apply keyword_tokens.
      * rewrite evaluate_other; [tauto|]. unfold hasCase.
        apply String.eqb_neq in Hc, Hs, Hk. now rewrite Hc, Hs, Hk.
Qed.

(** C2: the matcher returns true exactly when every condition of the
    list evaluates to true in the sense of the specification's evaluator
    ([Contract.Evaluates]: a substring for [contains], a prefix for
    [starts_with], a token that occurs for [keyword], nothing asked by
    another type); it is the conjunction, taken in list order, of the
    results on the single conditions, each of which is true exactly when
    the evaluator says so; and it is true on the empty list for every
    text. *)
Theorem checkConditions_is_conjunction (text : string)
    (conditions : list Condition) :
  (checkConditions text conditions = true
   <-> Contract.Matches text conditions)
  /\ checkConditions text conditions = forallb (evaluate text) conditions
  /\ (forall c, evaluate text c = true <-> Contract.Evaluates text c)
  /\ checkConditions text [] = true.
Proof.
  split; [|split; [apply checkConditions_forallb|split; [|reflexivity]]].
  - unfold Contract.Matches.
    induction conditions as [|c rest IH].
    + split; [constructor | reflexivity].
    + rewrite checkConditions_cons, andb_true_iff, IH, evaluate_evaluates.
      split.
      * intros [Hc Hrest]. now constructor.
      * intros H. inversion H; subst. now split.
  - intros c. apply evaluate_evaluates.
Qed.

(** C3: a [contains] condition holds exactly when the lower-cased value
    occurs inside the lower-cased text, a [starts_with] condition exactly
    when the lower-cased text begins with the lower-cased value; so two
    texts, and two values, that differ only in letter case give the same
    result. *)
Theorem contains_starts_with_ignore_case (text v text' v' : string)
    (Htext : sameIgnoringCase text text') (Hv : sameIgnoringCase v v') :
  (evaluate text (mkCondition "contains" v) = true
     <-> IsSubstring (toLowerCase v) (toLowerCase text))
  /\ (evaluate text (mkCondition "starts_with" v) = true
     <-> IsPrefix (toLowerCase v) (toLowerCase text))
  /\ evaluate text' (mkCondition "contains" v')
     = evaluate text (mkCondition "contains" v)
  /\ evaluate text' (mkCondition "starts_with" v')
     = evaluate text (mkCondition "starts_with" v).
Proof.
  unfold sameIgnoringCase in *.
  rewrite !evaluate_contains, !evaluate_starts_with.
  rewrite includes_spec, startsWith_spec, <- Htext, <- Hv.
  repeat split; auto.
Qed.

Lemma contains_starts_with_ignore_case_witness :
  sameIgnoringCase "Hello World" "HELLO WORLD"
  /\ sameIgnoringCase "hello" "HeLLo"
  /\ evaluate "HELLO WORLD" (mkCondition "contains" "HeLLo") = true.
Proof.
  split; [reflexivity|]. split; [reflexivity|].
  pose proof (contains_starts_with_ignore_case
                "Hello World" "hello" "HELLO WORLD" "HeLLo"
                eq_refl eq_refl) as (_ & _ & H & _).
  rewrite H. reflexivity.
Defined.

(** C4: a [keyword] condition holds exactly when the value, split on
    commas, has a piece whose trimmed, lower-cased form occurs inside the
    lower-cased text. *)
Theorem keyword_any_token (text v : string) :
  evaluate text (mkCondition "keyword" v) = true
  <-> exists pieces piece core,
        SplitOn "," v pieces
        /\ In piece pieces
        /\ TrimOf isWhiteSpace piece core
        /\ IsSubstring (toLowerCase core) (toLowerCase text).
Proof.
  rewrite evaluate_keyword, existsb_exists. split.
  - intros (k & Hin & Hk). apply in_map_iff in Hin as (piece & <- & Hin).
    exists (split "," v), piece, (trim piece).
    repeat split; try apply split_spec; auto.
    + apply trimBy_spec.
    + now apply includes_spec.
  - intros (pieces & piece & core & Hsplit & Hin & Htrim & Hsub).
    apply split_unique in Hsplit. apply trimBy_unique in Htrim. subst.
    exists (toLowerCase (trim piece)). split.
    + apply in_map_iff. now exists piece.
    + now apply includes_spec.
Qed.

(** C5: a condition whose type has no [case] in the matcher ([sentiment],
    [time_of_day], any other string) evaluates to true, and taking it out
    of a condition list does not change the matcher's result. *)
Theorem other_types_fail_open (text ty v : string)
    (before after : list Condition) (Hty : hasCase ty = false) :
  evaluate text (mkCondition ty v) = true
  /\ checkConditions text (before ++ mkCondition ty v :: after)
     = checkConditions text (before ++ after)
  /\ evaluate text (mkCondition "sentiment" v) = true
  /\ evaluate text (mkCondition "time_of_day" v) = true.
Proof.
  split; [now apply evaluate_other|]. split.
  - rewrite !checkConditions_app, checkConditions_cons.
    now rewrite evaluate_other.
  - split; now apply evaluate_other.
Qed.

Lemma other_types_fail_open_witness :
  hasCase "mood" = false
  /\ checkConditions "Please process this invoice"
       [mkCondition "starts_with" "please"; mkCondition "mood" "calm";
        mkCondition "contains" "invoice"] = true.
Proof.
  split; [reflexivity|].
  pose proof (other_types_fail_open "Please process this invoice" "mood"
                "calm" [mkCondition "starts_with" "please"]
                [mkCondition "contains" "invoice"] eq_refl) as (_ & H & _).
  simpl app in H. rewrite H. reflexivity.
Defined.

(** The examples of the matcher given with the rules. *)
Example keyword_example :
  evaluate "I need help urgently" (mkCondition "keyword" "urgent, asap, help")
  = true.
Proof. reflexivity. Qed.

Example conjunction_example :
  let rule := [mkCondition "contains" "invoice";
               mkCondition "starts_with" "please"] in
  checkConditions "Please review this document" rule = false
  /\ checkConditions "Please process this invoice" rule = true.
Proof. split; reflexivity. Qed.

End MatcherFacts.

(** ** The mobile router *)

Module MobileFacts.
Import Str Mobile.

Section Router.
Variable stringContains : string -> string -> bool.
Variable URL : string -> bool.

Lemma executed_app t1 t2 : executed (t1 ++ t2) = executed t1 ++ executed t2.
Proof.
  induction t1 as [|[a c|u j] t1 IH]; simpl; [reflexivity| |assumption].
  now rewrite IH.
Qed.

Lemma executed_executeAction action content trace :
  executed (executeAction URL action content trace)
  = executed trace ++ [(action, content)].
Proof.
  unfold executeAction, sendToDiscord, sendToTelegram, sendSMS, sendEmail,
    sendToSlack, sendToWebhook.
  destruct (channel action); try destruct (URL _);
    rewrite ?executed_app; simpl; now rewrite ?app_nil_r.
Qed.

Lemma executed_executeActions actions' content trace :
  executed (executeActions URL actions' content trace)
  = executed trace ++ map (fun a => (a, content)) actions'.
Proof.
  revert trace. induction actions' as [|a rest IH]; intros trace; simpl.
  - now rewrite app_nil_r.
  - rewrite IH, executed_executeAction, <- app_assoc. reflexivity.
Qed.


Lemma executed_routeResponse response rules trace :
  executed (routeResponse stringContains URL response rules trace)
  = executed trace ++ fanOut stringContains response rules.
Proof.
  revert trace. induction rules as [|r rules IH]; intros trace; simpl.
  - now rewrite app_nil_r.
  - unfold fanOut in *. simpl.
    destruct (isEnabled r); [destruct (matchesRule _ _ _)|]; simpl;
      rewrite IH; [|reflexivity|reflexivity].
    rewrite executed_executeActions, <- app_assoc. reflexivity.
Qed.
End Router.

(** The client and the backend agree on rules made of [sentiment],
    [time_of_day] and [contains] conditions, where the search of the
    client's platform answers as the backend's does on the value. *)
Lemma matchers_agree_on_contains
    (stringContains : string -> string -> bool) (text : string)
    (conditions' : list Condition) :
  Forall (fun c => type c = sentiment \/ type c = timeOfDay
                   \/ (type c = contains
                       /\ stringContains (toLowerCase text)
                            (toLowerCase (value c))
                          = includes (toLowerCase text)
                              (toLowerCase (value c))))
         conditions' ->
  matchesConditions stringContains text conditions'
  = Routes.checkConditions text (map toBackend conditions').
Proof.
  unfold Routes.checkConditions.
  induction 1 as [|c cs Hc _ IH]; [reflexivity|].
  destruct c as [ty v]. simpl in *.
  destruct Hc as [-> | [-> | [-> Hv]]]; simpl; try exact IH.
  rewrite Hv. destruct (includes _ _); simpl; [exact IH | reflexivity].
Qed.

(** C10: the two matchers differ. On the text [hello], the backend
    rejects the rule [starts_with "x"], which the client accepts, since
    its matcher has no case for [startsWith]; and the backend accepts the
    rule [keyword ""], whose one empty token is found in any text, while
    the client, which drops empty tokens, rejects it. *)
Theorem matchers_differ (stringContains : string -> string -> bool) :
  Routes.checkConditions "hello" (map toBackend [mkCondition startsWith "x"])
  = false
  /\ matchesRule stringContains "hello"
       (mkRoutingRule "1" "prefix" [mkCondition startsWith "x"] [] true)
     = true
  /\ Routes.checkConditions "hello" (map toBackend [mkCondition keyword ""])
     = true
  /\ matchesRule stringContains "hello"
       (mkRoutingRule "2" "keywords" [mkCondition keyword ""] [] true)
     = false.
Proof. repeat split. Qed.

End MobileFacts.

(** ** The channel handlers *)

Module WebhookFacts.
Import Str StrFacts Js Webhooks.

#[local] Arguments slice0 : simpl never.
#[local] Arguments ofNat : simpl never.

(** *** What an accepted body looks like *)

Lemma zString_inr p v s : zString p v = inr s -> v = VString s.
Proof. destruct v; simpl; congruence. Qed.

Lemma zStringThat_inr check p v s :
  zStringThat check p v = inr s -> v = VString s /\ check s = true.
Proof.
  destruct v; simpl; try congruence.
  destruct (check s0) eqn:E; intros H; inversion H; subst; auto.
Qed.

Lemma zBoth_inr {A B} (a : Parsed A) (b : Parsed B) x y :
  zBoth a b = inr (x, y) -> a = inr x /\ b = inr y.
Proof. destruct a, b; simpl; intros H; inversion H; auto. Qed.

Lemma zObject_inr {A} v (shape : list (string * Value) -> Parsed A) a :
  zObject v shape = inr a ->
  exists fields, v = VObject fields /\ shape fields = inr a.
Proof. destruct v; simpl; try congruence. intros H. eauto. Qed.

Lemma orElse_string s : orElse (VString s) (VString "") = VString s.
Proof.
  unfold orElse. simpl. destruct (String.eqb_spec s ""); subst; reflexivity.
Qed.

(** *** [try]/[catch] under [serve] *)

Lemma serve_tryCatch_normal rt (tried : M Reply) handler w r w' :
  tried w = (Normal r, w') -> serve rt (tryCatch tried handler) w = (r, w').
Proof. unfold serve, tryCatch. now intros ->. Qed.

Lemma serve_tryCatch_abrupt rt (tried : M Reply) handler w e w' :
  tried w = (Abrupt e, w') ->
  serve rt (tryCatch tried handler) w = serve rt (handler e) w'.
Proof. unfold serve, tryCatch. now intros ->. Qed.

(** The [catch] block of the discord, telegram and slack routes: one
    [failed] entry when the raw fields can be stored, and otherwise an
    error of its own, which leaves the world as it was. *)
Lemma catch_block rt e request caught w :
  logsFailure e = true ->
  let block :=
    (sliced <- optSlice1000 (optProp (body request) "content") ;;
     messageLog_create (user request) (channelOf e)
       (orElse (optProp (body request) (destinationKey e)) (VString ""))
       (orElse sliced (VString "")) "failed"
       (Some (messageOr rt "Unknown error" caught)) ;;
     ret (failure rt (fallbackOf e) caught))%js in
  if storesAsText (optProp (body request) (destinationKey e))
     && slicesToText (optProp (body request) "content")
  then serve rt block w
       = (failure rt (fallbackOf e) caught,
          withEntry w (failedEntry rt e request caught))
  else exists e', serve rt block w = (errorHandler rt e', w).
Proof.
  intros _. unfold failedEntry, withEntry, storesAsText, serve, bind.
  destruct (optProp (body request) "content") as [| |cb|cz|c|ci|cf];
    destruct (optProp (body request) (destinationKey e)) as [| |[]|z|d|di|df];
    cbn -[orElse]; rewrite ?orElse_string;
    unfold orElse; cbn;
    try match goal with
        | |- context [negb (?z =? 0)%Z] => destruct (Z.eqb_spec z 0)
        | |- context [(?s =? "")%string] => destruct (String.eqb_spec s "")
        end; subst; cbn; eauto.
Qed.

(** *** Requests that fail validation *)

Lemma rejected_issues {A} (r : Parsed A) :
  accepted r = false -> r = inl (issuesOf r).
Proof. destruct r; simpl; [reflexivity | discriminate]. Qed.

(** A body the schema refuses ends the [try] block at [parse], before
    anything was done. *)
Lemma tried_rejected {A B} (r : Parsed A) (k : A -> M B) w :
  accepted r = false ->
  bind (parse r) k w = (Abrupt (ZodError (issuesOf r)), w).
Proof. destruct r; simpl; [reflexivity | discriminate]. Qed.

Lemma rejected_without_entry rt e request w :
  logsFailure e = false ->
  validates rt e (body request) = false ->
  serve rt (handler rt e request) w
  = (failure rt (fallbackOf e)
       (ZodError (validationIssues rt e (body request))), w).
Proof.
  intros He Hbad. destruct e; try discriminate He; simpl in Hbad;
    unfold handler, sms, email, custom;
    (erewrite serve_tryCatch_abrupt; [|apply tried_rejected, Hbad]);
    reflexivity.
Qed.

Lemma rejected_with_entry rt e request w :
  logsFailure e = true ->
  validates rt e (body request) = false ->
  let caught := ZodError (validationIssues rt e (body request)) in
  if storesAsText (optProp (body request) (destinationKey e))
     && slicesToText (optProp (body request) "content")
  then serve rt (handler rt e request) w
       = (failure rt (fallbackOf e) caught,
          withEntry w (failedEntry rt e request caught))
  else exists e', serve rt (handler rt e request) w = (errorHandler rt e', w).
Proof.
  intros He Hbad caught.
  pose proof (catch_block rt e request caught w He) as Hblock.
  destruct e; try discriminate He; simpl in Hbad;
    unfold handler, discord, telegram, slack;
    (erewrite serve_tryCatch_abrupt; [|apply tried_rejected, Hbad]);
    exact Hblock.
Qed.

(** C7, as the handlers have it: a request whose body fails the schema
    of its route is answered with status 500, nothing is sent out and the
    rules are left alone. The sms, email and generic webhook routes write
    no entry and reply with zod's message over the issues it found. The
    discord, telegram and slack routes write the rejection as one
    [failed] entry carrying that message, with the raw destination and
    the first 1000 units of the raw content when these are strings (empty
    when absent); when a raw field is of a kind that cannot be stored,
    they write nothing and the reply is the error handler's. *)
Theorem validation_error_outcome (rt : Runtime) (e : Endpoint)
    (request : Request) (w : World)
    (Hbad : validates rt e (body request) = false) :
  let result := serve rt (handler rt e request) w in
  let caught := ZodError (validationIssues rt e (body request)) in
  statusCode (fst result) = 500
  /\ sent (snd result) = sent w
  /\ routingRule (snd result) = routingRule w
  /\ (if logsFailure e
         && storesAsText (optProp (body request) (destinationKey e))
         && slicesToText (optProp (body request) "content")
      then messageLog (snd result)
           = messageLog w ++ [failedEntry rt e request caught]
      else messageLog (snd result) = messageLog w)
  /\ (if negb (logsFailure e)
         || storesAsText (optProp (body request) (destinationKey e))
            && slicesToText (optProp (body request) "content")
      then fst result = failure rt (fallbackOf e) caught
      else exists e', fst result = errorHandler rt e').
Proof.
  intros result caught. subst result.
  destruct (logsFailure e) eqn:He.
  - pose proof (rejected_with_entry rt e request w He Hbad) as H.
    cbv zeta in H. rewrite andb_true_l, orb_false_l.
    destruct (storesAsText _ && slicesToText _).
    + rewrite H. simpl. repeat split; auto.
    + destruct H as [e' ->]. simpl. repeat split; eauto.
  - rewrite (rejected_without_entry rt e request w He Hbad). simpl.
    repeat split; auto.
Qed.

Lemma validation_error_outcome_witness :
  let rt := sampleRuntime unreachable in
  let request := mkRequest "u1" "" (VObject [("content", VString "hi")]) in
  validates rt Slack (body request) = false
  /\ messageLog (snd (serve rt (handler rt Slack request) emptyWorld))
     = [mkMessageLog "u1" "slack" "" "hi" "failed" (Some "invalid_type")]
  /\ sent (snd (serve rt (handler rt Slack request) emptyWorld)) = [].
Proof.
  intros rt request. split; [reflexivity|].
  pose proof (validation_error_outcome rt Slack request emptyWorld eq_refl)
    as (_ & Hsent & _ & Hlog & _).
  split; [exact Hlog | exact Hsent].
Defined.

(** The claim of C7 fails on the discord route: the empty object fails
    the schema, and the handler writes an entry for it. *)
Lemma validation_error_is_logged :
  let rt := sampleRuntime unreachable in
  let request := mkRequest "u1" "" (VObject []) in
  validates rt Discord (body request) = false
  /\ messageLog (snd (serve rt (discord rt request) emptyWorld))
     = [mkMessageLog "u1" "discord" "" "" "failed"
          (Some "invalid_type,invalid_type")]
  /\ messageLog (snd (serve rt (discord rt request) emptyWorld))
     <> messageLog emptyWorld.
Proof. repeat split. discriminate. Qed.

(** *** Requests that pass validation *)

Lemma bind_parse_accepted {A B} (a : A) (k : A -> M B) :
  bind (parse (inr a)) k = k a.
Proof. reflexivity. Qed.

Lemma serve_tryCatch rt (tried : M Reply) handler w :
  serve rt (tryCatch tried handler) w
  = match tried w with
    | (Normal r, w') => (r, w')
    | (Abrupt e, w') => serve rt (handler e) w'
    end.
Proof. unfold serve, tryCatch. now destruct (tried w) as [[r | e] w']. Qed.

(** [fetch], then the test of [response.ok]. *)
Lemma exchange {A} rt r label (k : M A) w :
  bind (fetch rt r)
       (fun '(st, _) => bind (throwUnlessOk label st) (fun _ => k)) w
  = match network rt (sent w) r with
    | Responded st _ =>
        if ok st then k (withSent w r)
        else (Abrupt (JsError (label ++ ofNat st)%string), withSent w r)
    | Rejected ex => (Abrupt ex, withSent w r)
    end.
Proof.
  unfold bind, fetch, throwUnlessOk, withSent.
  destruct (network rt (sent w) r) as [st txt | ex]; [|reflexivity].
  destruct (ok st); reflexivity.
Qed.

Ltac accepted_body H :=
  match type of H with
  | accepted ?r = true =>
      let Hs := fresh "Hs" in
      destruct r as [? | ?] eqn:Hs; [discriminate H |]; clear H
  end.

Ltac open_schema Hs :=
  apply zObject_inr in Hs as (? & ? & Hs);
  repeat match goal with
         | p : (_ * _)%type |- _ => destruct p
         | H : zBoth _ _ = inr _ |- _ => apply zBoth_inr in H as [? ?]
         | H : zString _ _ = inr _ |- _ => apply zString_inr in H
         | H : zStringThat _ _ _ = inr _ |- _ =>
             apply zStringThat_inr in H as [? ?]
         | H : zAny _ _ = inr _ |- _ => inversion H; subst; clear H
         end.

(** A valid request to the discord, telegram or slack route sends one
    request out and writes one entry: [sent] on a 2xx answer, [failed]
    with the status on any other answer, [failed] with the message of the
    exception when [fetch] rejects. *)
Lemma network_route_outcome rt e request w :
  logsFailure e = true ->
  validates rt e (body request) = true ->
  exists r,
    serve rt (handler rt e request) w
    = match network rt (sent w) r with
      | Responded st _ =>
          if ok st
          then (success, withEntry (withSent w r) (sentEntry e request))
          else let ex := JsError (statusLabel e ++ ofNat st)%string in
               (failure rt (fallbackOf e) ex,
                withEntry (withSent w r) (failedEntry rt e request ex))
      | Rejected ex =>
          (failure rt (fallbackOf e) ex,
           withEntry (withSent w r) (failedEntry rt e request ex))
      end.
Proof.
  intros He Hok.
  destruct e; try discriminate He.
  all: match goal with
       | |- context [handler _ ?E] =>
           simpl in Hok; accepted_body Hok;
           pose proof Hs as Hshape; open_schema Hshape;
           assert (Hstored :
             storesAsText (optProp (body request) (destinationKey E))
             && slicesToText (optProp (body request) "content") = true)
             by (simpl;
                 repeat match goal with
                        | Hb : body _ = _ |- _ => rewrite Hb
                        end; simpl;
                 repeat match goal with
                        | Hl : lookup _ _ = _ |- _ => rewrite Hl
                        end;
                 unfold storesAsText; rewrite orElse_string; reflexivity);
           pose proof (fun caught W => catch_block rt E request caught W He)
             as Hblock;
           cbv zeta in Hblock; rewrite Hstored in Hblock
       end.
  all: unfold handler, discord, telegram, slack;
    rewrite Hs, bind_parse_accepted; cbv beta iota;
    match goal with
    | |- context [fetch _ ?R] => exists R
    end;
    rewrite serve_tryCatch, exchange;
    match goal with
    | |- context [network ?T ?S ?R] =>
        destruct (network T S R) as [st txt | ex]
    end;
    try destruct (ok st);
    try apply Hblock.
  all: unfold sentEntry, withEntry, bind, messageLog_create; simpl;
    repeat match goal with
           | Hb : body _ = _ |- _ => rewrite Hb
           end; simpl;
    repeat match goal with
           | Hl : lookup _ _ = _ |- _ => rewrite Hl
           end; reflexivity.
Qed.

Ltac use_shape :=
  repeat match goal with
         | Hb : body _ = _ |- _ => rewrite Hb
         end; simpl;
  repeat match goal with
         | Hl : lookup _ _ = _ |- _ => rewrite Hl
         end.

(** A valid request to the sms route writes one [sent] entry and sends
    nothing. *)
Lemma sms_outcome rt request w :
  validates rt Sms (body request) = true ->
  serve rt (sms rt request) w
  = (mkReply 200 (VObject [("success", VBool true);
                           ("note", VString "Twilio integration required")]),
     withEntry w
       (mkMessageLog (user request) "sms"
          (textOf (optProp (body request) "phoneNumber"))
          (loggedContent (optProp (body request) "content")) "sent" None)).
Proof.
  intros Hok. simpl in Hok. accepted_body Hok.
  pose proof Hs as Hshape. open_schema Hshape.
  unfold sms. rewrite Hs, bind_parse_accepted, serve_tryCatch.
  use_shape. reflexivity.
Qed.

(** A valid request to the email route writes one [sent] entry, whose
    content is the subject as it came. *)
Lemma email_outcome rt request w :
  validates rt Email (body request) = true ->
  serve rt (email rt request) w
  = (mkReply 200
       (VObject [("success", VBool true);
                 ("note", VString "Email provider integration required")]),
     withEntry w
       (mkMessageLog (user request) "email"
          (textOf (optProp (body request) "to"))
          (textOf (optProp (body request) "subject")) "sent" None)).
Proof.
  intros Hok. simpl in Hok. accepted_body Hok.
  pose proof Hs as Hshape. open_schema Hshape.
  unfold email. rewrite Hs, bind_parse_accepted, serve_tryCatch.
  use_shape. reflexivity.
Qed.

(** A valid request to the generic webhook route sends one request out;
    an entry is written when the answer and its text arrive, [sent] for a
    2xx status and [failed] otherwise; when [fetch] rejects, or the text
    cannot be read, no entry is written. *)
Lemma custom_outcome rt request w :
  validates rt Custom (body request) = true ->
  exists r,
    serve rt (custom rt request) w
    = match network rt (sent w) r with
      | Responded st (inr responseBody) =>
          (mkReply 200
             (VObject [("success", VBool (ok st));
                       ("status", VNumber (Z.of_nat st));
                       ("response", VString (slice0 1000 responseBody))]),
           withEntry (withSent w r)
             (mkMessageLog (user request) "webhook"
                (textOf (optProp (body request) "url"))
                (stringifiedPrefix rt (optProp (body request) "body"))
                (if ok st then "sent" else "failed")
                (if ok st then None else Some ("HTTP " ++ ofNat st)%string)))
      | Responded _ (inl ex) | Rejected ex =>
          (failure rt "Failed to send webhook" ex, withSent w r)
      end.
Proof.
  intros Hok. simpl in Hok. accepted_body Hok.
  pose proof Hs as Hshape. open_schema Hshape.
  unfold custom. rewrite Hs, bind_parse_accepted. cbv beta iota.
  match goal with
  | |- context [fetch _ ?R] => exists R
  end.
  rewrite serve_tryCatch. unfold bind at 1. unfold fetch.
  destruct (network rt _ _) as [st [ex | responseBody] | ex];
    try reflexivity.
  use_shape. reflexivity.
Qed.

(** *** Bounds on what is stored *)

Lemma loggedContent_length v : String.length (loggedContent v) <= 1000.
Proof. destruct v; simpl; try lia. apply slice0_length. Qed.

Lemma stringifiedPrefix_length rt v :
  String.length (stringifiedPrefix rt v) <= 1000.
Proof. destruct v; simpl; try lia; apply slice0_length. Qed.

(** Whatever the request and whatever the network does, a route other
    than email writes at most one entry, of at most 1000 units of
    content. *)
Lemma entries_bounded rt e request w :
  e <> Email ->
  let w' := snd (serve rt (handler rt e request) w) in
  messageLog w' = messageLog w
  \/ exists entry,
       messageLog w' = messageLog w ++ [entry]
       /\ String.length (content entry) <= 1000.
Proof.
  intros He w'. subst w'.
  destruct (validates rt e (body request)) eqn:Hv;
    destruct (logsFailure e) eqn:Hl.
  - destruct (network_route_outcome rt e request w Hl Hv) as [r ->].
    right. destruct (network rt (sent w) r) as [st txt | ex];
      [destruct (ok st)|]; eexists; (split; [reflexivity|]);
      apply loggedContent_length.
  - destruct e; try discriminate Hl; try congruence; simpl handler.
    + rewrite (sms_outcome rt request w Hv). right. eexists.
      split; [reflexivity | apply loggedContent_length].
    + destruct (custom_outcome rt request w Hv) as [r ->].
      destruct (network rt (sent w) r) as [st [ex | responseBody] | ex];
        [now left | | now left].
      right. eexists. split; [reflexivity | apply stringifiedPrefix_length].
  - pose proof (rejected_with_entry rt e request w Hl Hv) as H.
    cbv zeta in H. destruct (storesAsText _ && slicesToText _).
    + rewrite H. right. eexists.
      split; [reflexivity | apply loggedContent_length].
    + destruct H as [e' ->]. now left.
  - rewrite (rejected_without_entry rt e request w Hl Hv). now left.
Qed.

(** Every request of a sequence is answered, whatever happened to the
    ones before it. *)
Lemma serveAll_replies rt requests w :
  List.length (fst (serveAll rt requests w)) = List.length requests.
Proof.
  revert w. induction requests as [|[e request] rest IH]; intros w;
    [reflexivity|].
  simpl. destruct (serve rt (handler rt e request) w) as [r w'].
  specialize (IH w'). destruct (serveAll rt rest w') as [rs w''].
  simpl in *. now rewrite IH.
Qed.

(** C1 at the generic webhook route: on a network where [fetch] rejects,
    a valid request is sent out and answered with status 500, and no
    entry is written for it; the discord request served after it gets
    its [failed] entry with the message of the exception. Two dispatches
    were attempted and one entry exists. *)
Theorem custom_rejection_writes_no_entry :
  let rt := sampleRuntime unreachable in
  let hook :=
    mkRequest "u1" "" (VObject [("url", VString "https://example.org/hook");
                                ("body", VObject [("text", VString "hi")])]) in
  let chat :=
    mkRequest "u1" ""
      (VObject [("content", VString "hi");
                ("webhookUrl", VString "https://example.org/discord")]) in
  validates rt Custom (body hook) = true
  /\ serve rt (custom rt hook) emptyWorld
     = (failure rt "Failed to send webhook" (JsError "fetch failed"),
        mkWorld [] []
          [mkHttpRequest "https://example.org/hook" "POST" jsonHeaders
             (Some (stringify (VObject [("text", VString "hi")])))])
  /\ messageLog (snd (serveAll rt [(Custom, hook); (Discord, chat)]
                        emptyWorld))
     = [mkMessageLog "u1" "discord" "https://example.org/discord" "hi"
          "failed" (Some "fetch failed")].
Proof. repeat split. Qed.

(** C8 at the email route: on every runtime, a request that passes the
    schema is logged as [sent] with its whole subject as content, however
    long it is: for a subject of more than 1000 units the content is
    longer than 1000 units, and is not the first 1000 units that the
    other routes would keep. *)
Theorem email_entry_keeps_whole_subject (rt : Runtime) (request : Request)
    (w : World) (subject : string)
    (Hvalid : validates rt Email (body request) = true)
    (Hsubject : optProp (body request) "subject" = VString subject) :
  exists entry,
    messageLog (snd (serve rt (email rt request) w))
    = messageLog w ++ [entry]
    /\ status entry = "sent"
    /\ content entry = subject
    /\ (1000 < String.length subject ->
        1000 < String.length (content entry)
        /\ content entry <> slice0 1000 subject).
Proof.
  rewrite (email_outcome rt request w Hvalid), Hsubject.
  eexists. split; [reflexivity|]. cbn [status content textOf].
  split; [reflexivity|]. split; [reflexivity|].
  intros Hlong. split; [exact Hlong|].
  intros Heq. pose proof (slice0_length 1000 subject) as Hcut.
  rewrite <- Heq in Hcut. lia.
Qed.

Lemma email_entry_keeps_whole_subject_witness :
  let rt := sampleRuntime unreachable in
  let request :=
    mkRequest "u1" ""
      (VObject [("to", VString "a@b.co");
                ("subject", VString (replicate 1001 "a"));
                ("body", VString "")]) in
  validates rt Email (body request) = true
  /\ optProp (body request) "subject" = VString (replicate 1001 "a")
  /\ String.length (replicate 1001 "a") = 1001
  /\ exists entry,
       messageLog (snd (serve rt (email rt request) emptyWorld))
       = messageLog emptyWorld ++ [entry]
       /\ status entry = "sent"
       /\ content entry = replicate 1001 "a"
       /\ (1000 < String.length (replicate 1001 "a") ->
           1000 < String.length (content entry)
           /\ content entry <> slice0 1000 (replicate 1001 "a")).
Proof.
  intros rt request.
  split; [reflexivity|]. split; [reflexivity|].
  split; [apply replicate_length|].
  exact (email_entry_keeps_whole_subject rt request emptyWorld
           (replicate 1001 "a") eq_refl eq_refl).
Defined.

End WebhookFacts.

(** ** The test handler *)

Module RouteFacts.
Import Str Js Routes.

(** The handler leaves the world as it found it, whatever the request. *)
Lemma testRoute_frame rt request w : snd (serve rt (testRoute request) w) = w.
Proof.
  unfold serve, testRoute, bind, destructure, routingRule_findFirst,
    checkConditionsOn.
  destruct (body request); simpl; try reflexivity;
    destruct (find _ _); simpl; try reflexivity;
    match goal with
    | |- context [match ?v with VUndefined => _ | _ => _ end] => destruct v
    end; reflexivity.
Qed.

Lemma testRoute_not_found rt request w fields :
  body request = VObject fields ->
  find (whereIdUser (paramId request) (user request)) (routingRule w) = None ->
  serve rt (testRoute request) w
  = (mkReply 404 (VObject [("error", VBool true);
                           ("message", VString "Route not found")]), w).
Proof.
  intros Hb Hf.
  unfold serve, testRoute, bind, destructure, routingRule_findFirst.
  rewrite Hb. simpl. rewrite Hf. reflexivity.
Qed.

(** C9, as the handler has it: for a rule of the caller and a text, the
    test operation answers with the matcher's result on the rule's
    conditions together with the name and the actions of the rule; it
    writes no log entry, sends nothing and leaves the stored rules as
    they were, and this holds for any request at all. *)
Theorem testRoute_dry_run (rt : Runtime) (request : Request) (w : World)
    (fields : list (string * Value)) (text : string) (route : RoutingRule)
    (Hbody : body request = VObject fields)
    (Htext : lookup "content" fields = VString text)
    (Hfound : find (whereIdUser (paramId request) (user request))
                   (routingRule w) = Some route) :
  serve rt (testRoute request) w
  = (mkReply 200
       (VObject [("matches", VBool (checkConditions text (conditions route)));
                 ("route", VObject [("name", VString (name route));
                                    ("actions", actions route)])]),
     w)
  /\ (forall request' w', snd (serve rt (testRoute request') w') = w').
Proof.
  split; [|intros; apply testRoute_frame].
  unfold serve, testRoute, bind, destructure, routingRule_findFirst,
    checkConditionsOn.
  rewrite Hbody. simpl. rewrite Hfound, Htext. reflexivity.
Qed.

Lemma testRoute_dry_run_witness :
  let rt := Webhooks.sampleRuntime Webhooks.unreachable in
  let rule :=
    mkRoutingRule "r1" "u1" "Team" [mkCondition "contains" "team"]
      (VArray [VObject [("channel", VString "slack");
                        ("destination", VString "https://hooks/x")]])
      5 true 0 0 in
  let w := mkWorld [rule] [] [] in
  let request :=
    mkRequest "u1" "r1"
      (VObject [("content", VString "Send update to the team")]) in
  find (whereIdUser (paramId request) (user request)) (routingRule w)
  = Some rule
  /\ serve rt (testRoute request) w
     = (mkReply 200
          (VObject [("matches", VBool true);
                    ("route", VObject [("name", VString "Team");
                                       ("actions", actions rule)])]),
        w).
Proof.
  intros rt rule w request. split; [reflexivity|].
  exact (proj1 (testRoute_dry_run rt request w
                  [("content", VString "Send update to the team")]
                  "Send update to the team" rule
                  eq_refl eq_refl eq_refl)).
Defined.

(** The claim of C9 fails where it says that only the boolean comes
    back: the reply to a test of a stored rule is no object of the one
    field [matches]. *)
Lemma testRoute_reply_names_the_rule :
  let rt := Webhooks.sampleRuntime Webhooks.unreachable in
  let rule :=
    mkRoutingRule "r1" "u1" "Team" [mkCondition "contains" "team"]
      (VArray [VObject [("channel", VString "slack");
                        ("destination", VString "https://hooks/x")]])
      5 true 0 0 in
  let request :=
    mkRequest "u1" "r1"
      (VObject [("content", VString "Send update to the team")]) in
  ~ exists b : bool,
      fst (serve rt (testRoute request) (mkWorld [rule] [] []))
      = mkReply 200 (VObject [("matches", VBool b)]).
Proof. intros rt rule request [b H]. discriminate H. Qed.

End RouteFacts.

(** ** The rule handlers *)

Module RouteCrudFacts.
Import Str Js Routes Webhooks RouteCrud.

(** *** What the schema lets in *)

Lemma zMap_inr {A B} (f : A -> B) (r : Parsed A) b :
  zMap f r = inr b -> exists a, r = inr a /\ b = f a.
Proof. destruct r; simpl; intros H; inversion H; eauto. Qed.

Lemma zBoth_parts {A B} (a : Parsed A) (b : Parsed B) x :
  zBoth a b = inr x -> a = inr (fst x) /\ b = inr (snd x).
Proof. destruct a, b; simpl; intros H; inversion H; auto. Qed.

Lemma zObject_shape {A} v (shape : list (string * Value) -> Parsed A) a :
  zObject v shape = inr a ->
  exists fields, v = VObject fields /\ shape fields = inr a.
Proof. destruct v; simpl; try congruence. eauto. Qed.

Lemma zUnder_inr {A} prefix (r : Parsed A) a :
  zUnder prefix r = inr a -> r = inr a.
Proof. destruct r; simpl; congruence. Qed.

Lemma zEnum_inr options p v s :
  zEnum options p v = inr s -> v = VString s /\ In s options.
Proof.
  destruct v; simpl; try congruence.
  destruct (existsb _ _) eqn:E; intros H; inversion H; subst.
  split; [reflexivity|].
  apply existsb_exists in E as (o & Hin & Ho).
  apply String.eqb_eq in Ho. now subst.
Qed.

Lemma zStringMin1_inr p v s :
  zStringMin1 p v = inr s -> v = VString s /\ s <> "".
Proof.
  destruct v; simpl; try congruence.
  destruct (String.eqb_spec s0 ""); intros H; inversion H; subst; auto.
Qed.

Lemma zItems_inr {A} (item : Value -> Parsed A) (P : A -> Prop) p :
  (forall v a, item v = inr a -> P a) ->
  forall items i l, zItems item p i items = inr l -> Forall P l.
Proof.
  intros Hitem. induction items as [|v rest IH]; intros i l H; simpl in H.
  - inversion H. constructor.
  - apply zMap_inr in H as ([a l'] & H & ->).
    apply zBoth_parts in H as [Ha Hl]. simpl in *.
    apply zUnder_inr in Ha. constructor; eauto.
Qed.

Lemma zArray_inr {A} (item : Value -> Parsed A) (P : A -> Prop) p v l :
  (forall v a, item v = inr a -> P a) ->
  zArray item p v = inr l -> Forall P l.
Proof.
  intros Hitem. destruct v; simpl; try congruence.
  apply (zItems_inr item P p Hitem).
Qed.

Lemma conditionSchema_inr v c :
  conditionSchema v = inr c -> In (type c) conditionTypes.
Proof.
  intros H. apply zObject_shape in H as (o & _ & H).
  apply zMap_inr in H as ([t s] & H & ->).
  apply zBoth_parts in H as [Ht _]. now apply zEnum_inr in Ht.
Qed.

Lemma createRouteSchema_inr v d :
  createRouteSchema v = inr d ->
  dataName d <> ""
  /\ Forall (fun c => In (type c) conditionTypes) (dataConditions d).
Proof.
  intros H. apply zObject_shape in H as (o & _ & H).
  apply zMap_inr in H as ([[[n cs] acts] pr] & H & ->).
  apply zBoth_parts in H as [H _]. apply zBoth_parts in H as [H _].
  apply zBoth_parts in H as [Hn Hc]. simpl in *.
  apply zStringMin1_inr in Hn as [_ Hn]. split; [assumption|].
  eapply zArray_inr; [|exact Hc]. apply conditionSchema_inr.
Qed.

Lemma zOptional_inr {A} (schema : string -> Value -> Parsed A) p v o :
  zOptional schema p v = inr o ->
  o = None \/ exists a, o = Some a /\ schema p v = inr a.
Proof.
  destruct v; simpl; intros H;
    try (inversion H; now left);
    apply zMap_inr in H as (a & H & ->); right; eauto.
Qed.

Lemma partialRouteSchema_inr v d :
  partialRouteSchema v = inr d ->
  (forall n, newName d = Some n -> n <> "")
  /\ (forall cs, newConditions d = Some cs ->
      Forall (fun c => In (type c) conditionTypes) cs).
Proof.
  intros H. apply zObject_shape in H as (o & _ & H).
  apply zMap_inr in H as ([[[n cs] acts] pr] & H & ->).
  apply zBoth_parts in H as [H _]. apply zBoth_parts in H as [H _].
  apply zBoth_parts in H as [Hn Hc]. simpl in *. split.
  - intros n' ->. apply zOptional_inr in Hn as [Hn | (a & Hn & Ha)];
      [discriminate|]. inversion Hn; subst. now apply zStringMin1_inr in Ha.
  - intros cs' ->. apply zOptional_inr in Hc as [Hc | (a & Hc & Ha)];
      [discriminate|]. inversion Hc; subst.
    eapply zArray_inr; [|exact Ha]. apply conditionSchema_inr.
Qed.

(** *** What each handler does *)

Lemma world_eta w : withRules w (routingRule w) = w.
Proof. now destruct w. Qed.

Lemma createRoute_accepted rt newId now request w d :
  createRouteSchema (body request) = inr d ->
  fitsInteger (dataPriority d) = true ->
  let r := mkRoutingRule (newId w) (user request) (dataName d)
             (dataConditions d) (actionsJson (dataActions d))
             (dataPriority d) true (now w) (now w) in
  serve rt (createRoute newId now request) w
  = (mkReply 200 (VObject [("route", ruleJson r)]),
     withRules w (routingRule w ++ [r])).
Proof.
  intros H Hfits. unfold serve, createRoute, tryCatch, bind. rewrite H.
  cbn [parse ret]. unfold routingRule_create. rewrite Hfits. reflexivity.
Qed.

Lemma createRoute_overflow rt newId now request w d :
  createRouteSchema (body request) = inr d ->
  fitsInteger (dataPriority d) = false ->
  serve rt (createRoute newId now request) w
  = (errorHandler rt (outOfRange (dataPriority d)), w).
Proof.
  intros H Hfits. unfold serve, createRoute, tryCatch, bind. rewrite H.
  cbn [parse ret]. unfold routingRule_create. rewrite Hfits. reflexivity.
Qed.

Lemma createRoute_rejected rt newId now request w issues :
  createRouteSchema (body request) = inl issues ->
  serve rt (createRoute newId now request) w = (invalidInput issues, w).
Proof.
  intros H. unfold serve, createRoute, tryCatch, bind. rewrite H.
  reflexivity.
Qed.

Lemma updateRoute_accepted rt now request w d :
  partialRouteSchema (body request) = inr d ->
  refusedPriority d = None ->
  let hit := whereIdUser (paramId request) (user request) in
  serve rt (updateRoute now request) w
  = (if List.length (filter hit (routingRule w)) =? 0
     then routeNotFound else succeeded,
     withRules w
       (map (fun r => if hit r then applyPatch d (now w) r else r)
            (routingRule w))).
Proof.
  intros H Hfits. unfold serve, updateRoute, tryCatch, bind. rewrite H.
  cbn [parse ret]. unfold routingRule_updateMany. rewrite Hfits.
  now destruct (List.length _ =? 0).
Qed.

Lemma updateRoute_overflow rt now request w d p :
  partialRouteSchema (body request) = inr d ->
  refusedPriority d = Some p ->
  serve rt (updateRoute now request) w = (errorHandler rt (outOfRange p), w).
Proof.
  intros H Hfits. unfold serve, updateRoute, tryCatch, bind. rewrite H.
  cbn [parse ret]. unfold routingRule_updateMany. rewrite Hfits.
  reflexivity.
Qed.

Lemma updateRoute_rejected rt now request w issues :
  partialRouteSchema (body request) = inl issues ->
  serve rt (updateRoute now request) w = (invalidInput issues, w).
Proof.
  intros H. unfold serve, updateRoute, tryCatch, bind. rewrite H.
  reflexivity.
Qed.

Lemma toggleRoute_found rt now request w r :
  ownedRule (paramId request) (user request) w = Some r ->
  serve rt (toggleRoute now request) w
  = (mkReply 200 (VObject [("success", VBool true);
                           ("isEnabled", VBool (negb (isEnabled r)))]),
     withRules w
       (map (fun x => if (ruleId x =? paramId request)%string
                      then setEnabled (negb (isEnabled r)) (now w) x else x)
            (routingRule w))).
Proof.
  unfold ownedRule. intros H.
  unfold serve, toggleRoute, bind, routingRule_findFirst. rewrite H.
  reflexivity.
Qed.

Lemma toggleRoute_missing rt now request w :
  ownedRule (paramId request) (user request) w = None ->
  serve rt (toggleRoute now request) w = (routeNotFound, w).
Proof.
  unfold ownedRule. intros H.
  unfold serve, toggleRoute, bind, routingRule_findFirst. rewrite H.
  reflexivity.
Qed.

Lemma deleteRoute_done rt request w :
  serve rt (deleteRoute request) w
  = (succeeded,
     withRules w
       (filter (fun r => negb (whereIdUser (paramId request) (user request) r))
               (routingRule w))).
Proof. reflexivity. Qed.

Lemma listRoutes_done rt request w :
  serve rt (listRoutes request) w
  = (mkReply 200
       (VObject [("routes",
                  VArray (map ruleJson
                    (orderByPriorityDesc
                       (filter (fun r => (ruleUserId r =? user request)%string)
                               (routingRule w)))))]),
     w).
Proof. reflexivity. Qed.

(** *** A refusal names at least one issue *)

Lemma zBoth_informative {A B} (a : Parsed A) (b : Parsed B) :
  Informative a -> Informative b -> Informative (zBoth a b).
Proof.
  destruct a as [[|i l]|x], b as [[|j l']|y]; simpl; auto.
Qed.

Lemma zMap_informative {A B} (f : A -> B) (r : Parsed A) :
  Informative r -> Informative (zMap f r).
Proof. destruct r as [[|i l]|x]; simpl; auto. Qed.

Lemma zUnder_informative {A} prefix (r : Parsed A) :
  Informative r -> Informative (zUnder prefix r).
Proof. destruct r as [[|i l]|x]; simpl; auto. Qed.

Lemma zObject_informative {A} v (shape : list (string * Value) -> Parsed A) :
  (forall o, Informative (shape o)) -> Informative (zObject v shape).
Proof. intros H. destruct v; simpl; auto. Qed.

Lemma zEnum_informative options p v : Informative (zEnum options p v).
Proof. destruct v; simpl; auto. now destruct (existsb _ _). Qed.

Lemma zString_informative p v : Informative (zString p v).
Proof. destruct v; simpl; auto. Qed.

Lemma zStringMin1_informative p v : Informative (zStringMin1 p v).
Proof. destruct v; simpl; auto. now destruct (s =? "")%string. Qed.

Lemma zNumber_informative p v : Informative (zNumber p v).
Proof. destruct v; simpl; auto. Qed.

Lemma zItems_informative {A} (item : Value -> Parsed A) p items :
  (forall v, Informative (item v)) ->
  forall i, Informative (zItems item p i items).
Proof.
  intros H. induction items as [|v rest IH]; intros i; simpl; auto.
  apply zMap_informative, zBoth_informative;
    [apply zUnder_informative, H | apply IH].
Qed.

Lemma zArray_informative {A} (item : Value -> Parsed A) p v :
  (forall v, Informative (item v)) -> Informative (zArray item p v).
Proof. intros H. destruct v; simpl; auto. now apply zItems_informative. Qed.

Lemma conditionSchema_informative v : Informative (conditionSchema v).
Proof.
  apply zObject_informative. intros o.
  apply zMap_informative, zBoth_informative;
    [apply zEnum_informative | apply zString_informative].
Qed.

Lemma actionSchema_informative v : Informative (actionSchema v).
Proof.
  apply zObject_informative. intros o.
  apply zBoth_informative;
    [apply zEnum_informative | apply zString_informative].
Qed.

Lemma createRouteSchema_informative v : Informative (createRouteSchema v).
Proof.
  apply zObject_informative. intros o.
  apply zMap_informative. repeat apply zBoth_informative.
  - apply zStringMin1_informative.
  - apply zArray_informative, conditionSchema_informative.
  - apply zArray_informative, actionSchema_informative.
  - unfold zDefault. destruct (lookup "priority" o); simpl; auto.
Qed.

(** X1: a create request that passes the schema with a priority the
    [INTEGER] column can hold adds one row at the end of the table and
    sends it back: the row is the caller's, has the id the database
    gave, is enabled, has the priority posted, a name that is not empty
    and conditions of the five types only; the log and the requests
    sent stay as they were. With a
    priority outside the 32 bits of the column the write is refused:
    the request is answered with status 500 and the world stays as it
    was. *)
Theorem createRoute_stores_enabled_rule (rt : Runtime)
    (newId : World -> string) (now : World -> nat) (request : Request)
    (w : World) (d : RouteData)
    (Hok : createRouteSchema (body request) = inr d) :
  let result := serve rt (createRoute newId now request) w in
  if fitsInteger (dataPriority d) then
    exists r,
      result
      = (mkReply 200 (VObject [("route", ruleJson r)]),
         mkWorld (routingRule w ++ [r]) (messageLog w) (sent w))
      /\ ruleId r = newId w
      /\ ruleUserId r = user request
      /\ isEnabled r = true
      /\ priority r = dataPriority d
      /\ wellFormed r
  else
    statusCode (fst result) = 500 /\ snd result = w.
Proof.
  intros result. subst result.
  destruct (fitsInteger (dataPriority d)) eqn:Hfits.
  - eexists. split; [apply (createRoute_accepted _ _ _ _ _ _ Hok Hfits)|].
    cbn [ruleId ruleUserId isEnabled priority].
    repeat split; apply (createRouteSchema_inr _ _ Hok).
  - rewrite (createRoute_overflow _ _ _ _ _ _ Hok Hfits). split; reflexivity.
Qed.

Lemma createRoute_stores_enabled_rule_witness :
  let rt := sampleRuntime unreachable in
  let request := fun p : Z =>
    mkRequest "u1" ""
      (VObject [("name", VString "Team");
                ("conditions",
                 VArray [VObject [("type", VString "contains");
                                  ("value", VString "team")]]);
                ("actions",
                 VArray [VObject [("channel", VString "slack");
                                  ("destination", VString "https://h/x")]]);
                ("priority", VNumber p)]) in
  let d := fun p : Z =>
    mkRouteData "Team" [mkCondition "contains" "team"]
      [("slack", "https://h/x")] p in
  let create := fun p : Z =>
    serve rt (createRoute (fun _ => "r1") (fun _ => 7) (request p))
      emptyWorld in
  createRouteSchema (body (request 5%Z)) = inr (d 5%Z)
  /\ createRouteSchema (body (request 3000000000%Z)) = inr (d 3000000000%Z)
  /\ (exists r,
        create 5%Z
        = (mkReply 200 (VObject [("route", ruleJson r)]),
           mkWorld ([] ++ [r]) [] [])
        /\ ruleId r = "r1"
        /\ ruleUserId r = "u1"
        /\ isEnabled r = true
        /\ priority r = 5%Z
        /\ wellFormed r)
  /\ statusCode (fst (create 3000000000%Z)) = 500
  /\ snd (create 3000000000%Z) = emptyWorld.
Proof.
  intros rt request d create.
  split; [reflexivity|]. split; [reflexivity|]. split.
  - exact (createRoute_stores_enabled_rule rt (fun _ => "r1") (fun _ => 7)
             (request 5%Z) emptyWorld (d 5%Z) eq_refl).
  - exact (createRoute_stores_enabled_rule rt (fun _ => "r1") (fun _ => 7)
             (request 3000000000%Z) emptyWorld (d 3000000000%Z) eq_refl).
Defined.

(** X2: a create request that fails the schema is answered with status
    400 and the issues found, of which there is at least one, and leaves
    the world as it was: no row, no log entry, nothing sent. *)
Theorem createRoute_refuses_malformed (rt : Runtime)
    (newId : World -> string) (now : World -> nat) (request : Request)
    (w : World)
    (Hbad : accepted (createRouteSchema (body request)) = false) :
  serve rt (createRoute newId now request) w
  = (invalidInput (issuesOf (createRouteSchema (body request))), w)
  /\ issuesOf (createRouteSchema (body request)) <> [].
Proof.
  pose proof (createRouteSchema_informative (body request)) as Hinf.
  destruct (createRouteSchema (body request)) as [issues | d] eqn:Hs;
    [|discriminate].
  split; [apply createRoute_rejected, Hs|].
  simpl. destruct issues; [contradiction | discriminate].
Qed.

Lemma createRoute_refuses_malformed_witness :
  let rt := sampleRuntime unreachable in
  let request :=
    mkRequest "u1" ""
      (VObject [("name", VString "");
                ("conditions",
                 VArray [VObject [("type", VString "regex");
                                  ("value", VString "a.*")]]);
                ("actions", VArray [])]) in
  accepted (createRouteSchema (body request)) = false
  /\ serve rt (createRoute (fun _ => "r1") (fun _ => 7) request) emptyWorld
     = (invalidInput [mkIssue ["name"] "too_small";
                      mkIssue ["conditions"; "0"; "type"]
                        "invalid_enum_value"],
        emptyWorld).
Proof.
  intros rt request. split; [reflexivity|].
  exact (proj1 (createRoute_refuses_malformed rt (fun _ => "r1")
                  (fun _ => 7) request emptyWorld eq_refl)).
Defined.

(** *** Rows that stay *)

Lemma applyPatch_well_formed v d t r :
  partialRouteSchema v = inr d -> wellFormed r ->
  wellFormed (applyPatch d t r).
Proof.
  intros Hs [Hn Hc]. apply partialRouteSchema_inr in Hs as [Hname Hconds].
  unfold wellFormed, applyPatch. simpl.
  destruct (newName d) as [n|], (newConditions d) as [cs|]; split; auto.
Qed.

Lemma map_when_well_formed (hit : RoutingRule -> bool) f rules :
  (forall r, wellFormed r -> wellFormed (f r)) ->
  Forall wellFormed rules ->
  Forall wellFormed (map (fun r => if hit r then f r else r) rules).
Proof.
  intros Hf H. induction H as [|r rules Hr _ IH]; simpl; constructor; auto.
  destruct (hit r); auto.
Qed.

Lemma filter_well_formed (keep : RoutingRule -> bool) rules :
  Forall wellFormed rules -> Forall wellFormed (filter keep rules).
Proof.
  intros H. apply Forall_forall. intros r Hin.
  apply filter_In in Hin as [Hin _].
  now apply (proj1 (Forall_forall _ _) H).
Qed.

(** X3: the schema is an invariant of the table. When every row has a
    name that is not empty and conditions of the five types only, this
    still holds after any request to any of the six routes, valid or
    not. *)
Theorem operations_keep_rules_well_formed (rt : Runtime)
    (newId : World -> string) (now : World -> nat) (o : Operation)
    (request : Request) (w : World)
    (Hw : Forall wellFormed (routingRule w)) :
  Forall wellFormed
    (routingRule (snd (serve rt (operation newId now o request) w))).
Proof.
  destruct o; simpl operation.
  - rewrite listRoutes_done. exact Hw.
  - destruct (createRouteSchema (body request)) as [issues | d] eqn:Hs.
    + rewrite (createRoute_rejected _ _ _ _ _ _ Hs). exact Hw.
    + destruct (fitsInteger (dataPriority d)) eqn:Hfits.
      * rewrite (createRoute_accepted _ _ _ _ _ _ Hs Hfits). simpl.
        apply Forall_app. split; [exact Hw|]. constructor; [|constructor].
        apply (createRouteSchema_inr _ _ Hs).
      * rewrite (createRoute_overflow _ _ _ _ _ _ Hs Hfits). exact Hw.
  - destruct (partialRouteSchema (body request)) as [issues | d] eqn:Hs.
    + rewrite (updateRoute_rejected _ _ _ _ _ Hs). exact Hw.
    + destruct (refusedPriority d) as [p|] eqn:Hfits.
      * rewrite (updateRoute_overflow _ _ _ _ _ _ Hs Hfits). exact Hw.
      * rewrite (updateRoute_accepted _ _ _ _ _ Hs Hfits). simpl.
        apply map_when_well_formed; [|exact Hw].
        intros r. now apply applyPatch_well_formed with (v := body request).
  - destruct (ownedRule (paramId request) (user request) w) as [r|] eqn:Hf.
    + rewrite (toggleRoute_found _ _ _ _ _ Hf). simpl.
      apply map_when_well_formed; [|exact Hw]. now intros x.
    + rewrite (toggleRoute_missing _ _ _ _ Hf). exact Hw.
  - rewrite deleteRoute_done. simpl. now apply filter_well_formed.
  - rewrite RouteFacts.testRoute_frame. exact Hw.
Qed.

Lemma operations_keep_rules_well_formed_witness :
  let rt := sampleRuntime unreachable in
  let rule := mkRoutingRule "r1" "u1" "Team" [mkCondition "keyword" "a,b"]
                (VArray []) 0 true 0 0 in
  let w := mkWorld [rule] [] [] in
  let request := mkRequest "u1" "r1" (VObject [("name", VString "Ops")]) in
  Forall wellFormed (routingRule w)
  /\ Forall wellFormed
       (routingRule (snd (serve rt (operation (fun _ => "r2") (fun _ => 7)
                                     Update request) w))).
Proof.
  intros rt rule w request.
  assert (Hw : Forall wellFormed (routingRule w)).
  { repeat constructor; simpl; auto; discriminate. }
  split; [exact Hw|].
  exact (operations_keep_rules_well_formed rt (fun _ => "r2") (fun _ => 7)
           Update request w Hw).
Defined.

(** *** Rows of other callers *)

Lemma NoDup_map_same {A B} (f : A -> B) l a b :
  NoDup (map f l) -> In a l -> In b l -> f a = f b -> a = b.
Proof.
  induction l as [|x l IH]; simpl; [contradiction|].
  intros Hnd Ha Hb Hab. inversion Hnd as [|? ? Hnot Hnd']; subst.
  destruct Ha as [-> | Ha], Hb as [-> | Hb]; auto.
  - exfalso. apply Hnot. rewrite Hab. now apply in_map.
  - exfalso. apply Hnot. rewrite <- Hab. now apply in_map.
Qed.

Lemma others_after_map u (f : RoutingRule -> RoutingRule) rules :
  (forall r, In r rules -> ruleUserId r <> u -> f r = r) ->
  (forall r, In r rules -> ruleUserId r = u -> ruleUserId (f r) = u) ->
  filter (fun r => negb (ruleUserId r =? u)%string) (map f rules)
  = filter (fun r => negb (ruleUserId r =? u)%string) rules.
Proof.
  induction rules as [|r rules IH]; intros Hother Hown; [reflexivity|].
  simpl. rewrite IH;
    [|intros; apply Hother; simpl; auto | intros; apply Hown; simpl; auto].
  destruct (String.eqb_spec (ruleUserId r) u) as [Hu | Hu].
  - rewrite (proj2 (String.eqb_eq _ _) (Hown r (or_introl eq_refl) Hu)).
    reflexivity.
  - rewrite (Hother r (or_introl eq_refl) Hu).
    rewrite (proj2 (String.eqb_neq _ _) Hu). reflexivity.
Qed.

Lemma whereIdUser_true id u r :
  whereIdUser id u r = true <-> ruleId r = id /\ ruleUserId r = u.
Proof.
  unfold whereIdUser. rewrite andb_true_iff, !String.eqb_eq. reflexivity.
Qed.

Lemma others_after_filter id u rules :
  filter (fun r => negb (ruleUserId r =? u)%string)
         (filter (fun r => negb (whereIdUser id u r)) rules)
  = filter (fun r => negb (ruleUserId r =? u)%string) rules.
Proof.
  induction rules as [|r rules IH]; [reflexivity|]. simpl.
  unfold whereIdUser at 1.
  destruct (ruleUserId r =? u)%string eqn:Hu; simpl.
  - destruct (ruleId r =? id)%string; simpl; rewrite ?Hu; simpl; exact IH.
  - rewrite andb_false_r. simpl. rewrite Hu. simpl. now rewrite IH.
Qed.

(** X4: a request of one caller never reaches the rows of another, nor
    the log, nor the network. With [id] a primary key, after any request
    of [u] to any of the six routes the rows of the other callers are
    the same, in the same order, the log is the same and nothing was
    sent. *)
Theorem operations_keep_to_the_caller (rt : Runtime)
    (newId : World -> string) (now : World -> nat) (o : Operation)
    (request : Request) (w : World) (Hkey : uniqueIds w) :
  let w' := snd (serve rt (operation newId now o request) w) in
  rulesOfOthers (user request) w' = rulesOfOthers (user request) w
  /\ messageLog w' = messageLog w
  /\ sent w' = sent w.
Proof.
  unfold rulesOfOthers. destruct o; simpl operation.
  - rewrite listRoutes_done. auto.
  - destruct (createRouteSchema (body request)) as [issues | d] eqn:Hs.
    + rewrite (createRoute_rejected _ _ _ _ _ _ Hs). auto.
    + destruct (fitsInteger (dataPriority d)) eqn:Hfits.
      * rewrite (createRoute_accepted _ _ _ _ _ _ Hs Hfits). simpl.
        rewrite filter_app. simpl. rewrite String.eqb_refl. simpl.
        now rewrite app_nil_r.
      * rewrite (createRoute_overflow _ _ _ _ _ _ Hs Hfits). auto.
  - destruct (partialRouteSchema (body request)) as [issues | d] eqn:Hs.
    + rewrite (updateRoute_rejected _ _ _ _ _ Hs). auto.
    + destruct (refusedPriority d) as [p|] eqn:Hfits.
      * rewrite (updateRoute_overflow _ _ _ _ _ _ Hs Hfits). auto.
      * rewrite (updateRoute_accepted _ _ _ _ _ Hs Hfits). simpl.
        repeat split. apply others_after_map.
        -- intros r _ Hu.
           destruct (whereIdUser _ _ r) eqn:Hhit; [|reflexivity].
           apply whereIdUser_true in Hhit as [_ Hhit]. contradiction.
        -- intros r _ Hu. now destruct (whereIdUser _ _ r).
  - destruct (ownedRule (paramId request) (user request) w) as [r0|] eqn:Hf.
    + rewrite (toggleRoute_found _ _ _ _ _ Hf). simpl.
      repeat split. unfold ownedRule in Hf.
      apply find_some in Hf as [Hin0 Hhit0].
      apply whereIdUser_true in Hhit0 as [Hid0 Hu0].
      apply others_after_map.
      * intros r Hin Hu.
        destruct (String.eqb_spec (ruleId r) (paramId request)) as [Hid|];
          [|reflexivity].
        exfalso. apply Hu.
        rewrite (NoDup_map_same ruleId _ r r0 Hkey Hin Hin0); congruence.
      * intros r _ Hu. now destruct (ruleId r =? paramId request)%string.
    + rewrite (toggleRoute_missing _ _ _ _ Hf). auto.
  - rewrite deleteRoute_done. simpl. repeat split.
    apply others_after_filter.
  - rewrite RouteFacts.testRoute_frame. auto.
Qed.

Lemma operations_keep_to_the_caller_witness :
  let rt := sampleRuntime unreachable in
  let mine := mkRoutingRule "r1" "u1" "Mine" [] (VArray []) 0 true 0 0 in
  let theirs := mkRoutingRule "r2" "u2" "Theirs" [] (VArray []) 3 true 0 0 in
  let w := mkWorld [theirs; mine] [] [] in
  let request := mkRequest "u1" "r2" VUndefined in
  uniqueIds w
  /\ rulesOfOthers "u1"
       (snd (serve rt (operation (fun _ => "r3") (fun _ => 7) Delete
                         request) w))
     = [theirs].
Proof.
  intros rt mine theirs w request.
  assert (Hkey : uniqueIds w).
  { repeat constructor; simpl; intuition discriminate. }
  split; [exact Hkey|].
  exact (proj1 (operations_keep_to_the_caller rt (fun _ => "r3")
                  (fun _ => 7) Delete request w Hkey)).
Defined.

(** *** Toggling *)

Lemma find_map_preserved (hit : RoutingRule -> bool) f rules :
  (forall r, hit (f r) = hit r) ->
  find hit (map f rules) = option_map f (find hit rules).
Proof.
  intros Hf. induction rules as [|r rules IH]; [reflexivity|].
  simpl. rewrite Hf. now destruct (hit r).
Qed.

Lemma toggle_back id b t t' r0 rules :
  NoDup (map ruleId rules) -> In r0 rules -> ruleId r0 = id ->
  isEnabled r0 = b ->
  map (fun x => if (ruleId x =? id)%string then setEnabled b t' x else x)
      (map (fun x => if (ruleId x =? id)%string
                     then setEnabled (negb b) t x else x) rules)
  = map (fun x => if (ruleId x =? id)%string
                  then setEnabled (isEnabled x) t' x else x) rules.
Proof.
  intros Hkey Hin Hid Hb. rewrite map_map.
  apply map_ext_in. intros r Hr.
  destruct (String.eqb_spec (ruleId r) id) as [Hrid | Hrid].
  - simpl. rewrite (proj2 (String.eqb_eq _ _) Hrid).
    assert (r = r0) as -> by
      (apply (NoDup_map_same ruleId rules); congruence).
    subst b. reflexivity.
  - now rewrite (proj2 (String.eqb_neq _ _) Hrid).
Qed.

(** X5: toggling flips the flag of the caller's rule, sets its
    [updatedAt] to the instant of the call and leaves the rest of it,
    and answers with the new flag; toggling again brings every column of
    every row back but that date, which is the instant of the second
    call ([id] being a primary key); the log and the requests sent are
    never touched. *)
Theorem toggleRoute_twice_restores (rt : Runtime) (now : World -> nat)
    (request : Request) (w : World) (r : RoutingRule)
    (Hkey : uniqueIds w)
    (Hfound : ownedRule (paramId request) (user request) w = Some r) :
  let once := serve rt (toggleRoute now request) w in
  let twice := serve rt (toggleRoute now request) (snd once) in
  fst once
  = mkReply 200 (VObject [("success", VBool true);
                          ("isEnabled", VBool (negb (isEnabled r)))])
  /\ ownedRule (paramId request) (user request) (snd once)
     = Some (mkRoutingRule (ruleId r) (ruleUserId r) (name r) (conditions r)
               (actions r) (priority r) (negb (isEnabled r)) (createdAt r)
               (now w))
  /\ fst twice
     = mkReply 200 (VObject [("success", VBool true);
                             ("isEnabled", VBool (isEnabled r))])
  /\ routingRule (snd twice)
     = map (fun x => if (ruleId x =? paramId request)%string
                     then mkRoutingRule (ruleId x) (ruleUserId x) (name x)
                            (conditions x) (actions x) (priority x)
                            (isEnabled x) (createdAt x) (now (snd once))
                     else x)
           (routingRule w)
  /\ messageLog (snd twice) = messageLog w
  /\ sent (snd twice) = sent w.
Proof.
  intros once twice. subst twice once.
  rewrite (toggleRoute_found _ _ _ _ _ Hfound). simpl fst. simpl snd.
  set (w1 := withRules w _).
  assert (Hnext :
    ownedRule (paramId request) (user request) w1
    = Some (setEnabled (negb (isEnabled r)) (now w) r)).
  { unfold ownedRule in *. subst w1. simpl.
    rewrite find_map_preserved.
    - rewrite Hfound. simpl.
      apply find_some in Hfound as [_ Hhit].
      apply whereIdUser_true in Hhit as [Hid _].
      now rewrite (proj2 (String.eqb_eq _ _) Hid).
    - intros x. now destruct (ruleId x =? paramId request)%string. }
  rewrite (toggleRoute_found _ _ _ _ _ Hnext). simpl fst. simpl snd.
  cbn [setEnabled isEnabled]. rewrite negb_involutive.
  split; [reflexivity|]. split; [exact Hnext|]. split; [reflexivity|].
  split; [|split; reflexivity].
  unfold ownedRule in Hfound. apply find_some in Hfound as [Hin Hhit].
  apply whereIdUser_true in Hhit as [Hid _].
  subst w1. cbn [withRules routingRule].
  apply (toggle_back _ (isEnabled r) (now w) _ r); auto.
Qed.

Lemma toggleRoute_twice_restores_witness :
  let rt := sampleRuntime unreachable in
  let now := fun w : World =>
    if forallb isEnabled (routingRule w) then 5 else 9 in
  let mine := mkRoutingRule "r1" "u1" "Mine" [] (VArray []) 0 true 1 2 in
  let theirs := mkRoutingRule "r2" "u2" "Theirs" [] (VArray []) 3 true 3 4 in
  let w := mkWorld [theirs; mine] [] [] in
  let request := mkRequest "u1" "r1" VUndefined in
  uniqueIds w
  /\ ownedRule "r1" "u1" w = Some mine
  /\ routingRule (snd (serve rt (toggleRoute now request) w))
     = [theirs; mkRoutingRule "r1" "u1" "Mine" [] (VArray []) 0 false 1 5]
  /\ routingRule (snd (serve rt (toggleRoute now request)
                         (snd (serve rt (toggleRoute now request) w))))
     = [theirs; mkRoutingRule "r1" "u1" "Mine" [] (VArray []) 0 true 1 9].
Proof.
  intros rt now mine theirs w request.
  assert (Hkey : uniqueIds w).
  { repeat constructor; simpl; intuition discriminate. }
  split; [exact Hkey|]. split; [reflexivity|]. split; [reflexivity|].
  exact (proj1 (proj2 (proj2 (proj2 (toggleRoute_twice_restores rt now
                                       request w mine Hkey eq_refl))))).
Defined.

(** *** Updating *)

Lemma no_hit_no_change (hit : RoutingRule -> bool) f rules :
  find hit rules = None ->
  map (fun r => if hit r then f r else r) rules = rules
  /\ List.length (filter hit rules) = 0.
Proof.
  induction rules as [|r rules IH]; simpl; [auto|].
  destruct (hit r); [discriminate|]. intros H.
  destruct (IH H) as [-> ->]. auto.
Qed.

Lemma some_hit_counts (hit : RoutingRule -> bool) rules r :
  find hit rules = Some r -> (List.length (filter hit rules) =? 0) = false.
Proof.
  induction rules as [|x rules IH]; simpl; [discriminate|].
  destruct (hit x); [reflexivity | exact IH].
Qed.

(** X6: an update that passes the schema with a priority the [INTEGER]
    column cannot hold is refused by the write: status 500 and nothing
    changes. Otherwise it answers 404 and changes nothing when the
    caller has no rule under the id, and else answers success, and the
    caller's rule has the fields of the body in place of its own, the
    instant of the call as [updatedAt], and keeps the others. In every
    case each row keeps its id, its owner, its flag and its [createdAt],
    so an update never enables, disables or moves a rule, and the log
    and the requests sent are as they were. *)
Theorem updateRoute_patches_own_rule (rt : Runtime) (now : World -> nat)
    (request : Request) (w : World) (d : Patch)
    (Hok : partialRouteSchema (body request) = inr d) :
  let result := serve rt (updateRoute now request) w in
  match refusedPriority d with
  | Some p => statusCode (fst result) = 500 /\ snd result = w
  | None =>
      match ownedRule (paramId request) (user request) w with
      | None => result = (routeNotFound, w)
      | Some r =>
          fst result = succeeded
          /\ ownedRule (paramId request) (user request) (snd result)
             = Some (mkRoutingRule (ruleId r) (ruleUserId r)
                       (match newName d with
                        | Some n => n
                        | None => name r
                        end)
                       (match newConditions d with
                        | Some c => c
                        | None => conditions r
                        end)
                       (match newActions d with
                        | Some a => actionsJson a
                        | None => actions r
                        end)
                       (match newPriority d with
                        | Some p => p
                        | None => priority r
                        end)
                       (isEnabled r) (createdAt r) (now w))
      end
  end
  /\ map (fun r => (ruleId r, ruleUserId r, isEnabled r, createdAt r))
         (routingRule (snd result))
     = map (fun r => (ruleId r, ruleUserId r, isEnabled r, createdAt r))
           (routingRule w)
  /\ messageLog (snd result) = messageLog w
  /\ sent (snd result) = sent w.
Proof.
  intros result. subst result.
  destruct (refusedPriority d) as [p|] eqn:Hfits.
  - rewrite (updateRoute_overflow _ _ _ _ _ _ Hok Hfits). simpl. auto.
  - rewrite (updateRoute_accepted _ _ _ _ _ Hok Hfits).
    cbv zeta. simpl snd. simpl fst. split; [|split; [|split; reflexivity]].
    + unfold ownedRule.
      destruct (find _ (routingRule w)) as [r|] eqn:Hf.
      * rewrite (some_hit_counts _ _ _ Hf). split; [reflexivity|].
        simpl. rewrite find_map_preserved.
        -- rewrite Hf. simpl. apply find_some in Hf as [_ Hhit].
           now rewrite Hhit.
        -- intros x. now destruct (whereIdUser _ _ x) eqn:E.
      * destruct (no_hit_no_change _ (applyPatch d (now w)) _ Hf) as [-> ->].
        simpl. now rewrite world_eta.
    + simpl. rewrite map_map. apply map_ext. intros r.
      now destruct (whereIdUser _ _ r).
Qed.

Lemma updateRoute_patches_own_rule_witness :
  let rt := sampleRuntime unreachable in
  let mine := mkRoutingRule "r1" "u1" "Mine" [mkCondition "contains" "a"]
                (VArray []) 0 false 1 2 in
  let w := mkWorld [mine] [] [] in
  let request :=
    mkRequest "u1" "r1"
      (VObject [("priority", VNumber 7); ("isEnabled", VBool true)]) in
  let d := mkPatch None None None (Some 7%Z) in
  partialRouteSchema (body request) = inr d
  /\ fst (serve rt (updateRoute (fun _ => 9) request) w) = succeeded
  /\ ownedRule "r1" "u1" (snd (serve rt (updateRoute (fun _ => 9) request) w))
     = Some (mkRoutingRule "r1" "u1" "Mine" [mkCondition "contains" "a"]
               (VArray []) 7 false 1 9).
Proof.
  intros rt mine w request d. split; [reflexivity|].
  exact (proj1 (updateRoute_patches_own_rule rt (fun _ => 9) request w d
                  eq_refl)).
Defined.

(** *** Deleting *)

Lemma find_after_delete (hit : RoutingRule -> bool) rules :
  find hit (filter (fun r => negb (hit r)) rules) = None.
Proof.
  induction rules as [|r rules IH]; [reflexivity|]. simpl.
  destruct (hit r) eqn:E; simpl; [exact IH|]. now rewrite E.
Qed.

Lemma filter_twice (keep : RoutingRule -> bool) rules :
  filter keep (filter keep rules) = filter keep rules.
Proof.
  induction rules as [|r rules IH]; [reflexivity|]. simpl.
  destruct (keep r) eqn:E; simpl; rewrite ?E, IH; reflexivity.
Qed.

Lemma filter_all (keep : RoutingRule -> bool) rules :
  (forall r, In r rules -> keep r = true) -> filter keep rules = rules.
Proof.
  induction rules as [|r rules IH]; intros H; [reflexivity|]. simpl.
  rewrite (H r (or_introl eq_refl)), IH; [reflexivity|].
  intros x Hx. apply H. now right.
Qed.

(** X7: a delete always answers success. Afterwards the caller has no
    rule under the id, every other row is still there, and a test of the
    deleted rule answers 404; deleting again, or deleting what the
    caller never had, changes nothing. *)
Theorem deleteRoute_removes_own_rule (rt : Runtime) (request : Request)
    (w : World) :
  let result := serve rt (deleteRoute request) w in
  let id := paramId request in
  let u := user request in
  fst result = succeeded
  /\ ownedRule id u (snd result) = None
  /\ (forall r, In r (routingRule (snd result))
                <-> In r (routingRule w) /\ whereIdUser id u r = false)
  /\ snd (serve rt (deleteRoute request) (snd result)) = snd result
  /\ (ownedRule id u w = None -> snd result = w)
  /\ (forall content,
        fst (serve rt (testRoute
                         (mkRequest u id (VObject [("content", content)])))
               (snd result))
        = routeNotFound).
Proof.
  intros result id u. subst result id u. rewrite deleteRoute_done.
  simpl fst. simpl snd. split; [reflexivity|].
  assert (Hgone :
    ownedRule (paramId request) (user request)
      (withRules w
         (filter (fun r => negb (whereIdUser (paramId request)
                                   (user request) r)) (routingRule w)))
    = None) by apply find_after_delete.
  split; [exact Hgone|]. split; [|split; [|split]].
  - intros r. simpl. rewrite filter_In, negb_true_iff. reflexivity.
  - unfold withRules. simpl. now rewrite filter_twice.
  - intros Hnone. unfold ownedRule in Hnone. unfold withRules.
    rewrite filter_all; [now destruct w|].
    intros r Hin. apply negb_true_iff.
    destruct (whereIdUser _ _ r) eqn:E; [|reflexivity].
    now rewrite (find_none _ _ Hnone r Hin) in E.
  - intros content.
    erewrite RouteFacts.testRoute_not_found; [reflexivity | reflexivity|].
    exact Hgone.
Qed.

(** *** A created rule can be tested *)

Lemma find_app_fresh (hit : RoutingRule -> bool) rules r :
  (forall x, In x rules -> hit x = false) -> hit r = true ->
  find hit (rules ++ [r]) = Some r.
Proof.
  induction rules as [|x rules IH]; intros Hold Hr; simpl.
  - now rewrite Hr.
  - rewrite (Hold x (or_introl eq_refl)). apply IH; [|exact Hr].
    intros y Hy. apply Hold. now right.
Qed.

(** X8: create, then test. When the priority posted fits the [INTEGER]
    column and the id the database gives is new, a test of that id by
    the same caller answers with the matcher's result on the conditions
    that were posted, and with the name and the actions that were
    posted. *)
Theorem created_rule_can_be_tested (rt : Runtime) (newId : World -> string)
    (now : World -> nat) (request : Request) (w : World) (d : RouteData)
    (text : string)
    (Hok : createRouteSchema (body request) = inr d)
    (Hfits : fitsInteger (dataPriority d) = true)
    (Hnew : ~ In (newId w) (map ruleId (routingRule w))) :
  let w' := snd (serve rt (createRoute newId now request) w) in
  serve rt (testRoute (mkRequest (user request) (newId w)
                         (VObject [("content", VString text)]))) w'
  = (mkReply 200
       (VObject [("matches",
                  VBool (checkConditions text (dataConditions d)));
                 ("route",
                  VObject [("name", VString (dataName d));
                           ("actions", actionsJson (dataActions d))])]),
     w').
Proof.
  intros w'. subst w'. rewrite (createRoute_accepted _ _ _ _ _ _ Hok Hfits).
  simpl snd.
  set (r := mkRoutingRule _ _ _ _ _ _ _ _ _).
  assert (Hfind :
    find (whereIdUser (newId w) (user request)) (routingRule w ++ [r])
    = Some r).
  { apply find_app_fresh.
    - intros x Hx. unfold whereIdUser.
      destruct (String.eqb_spec (ruleId x) (newId w)) as [Hid|];
        [|reflexivity].
      exfalso. apply Hnew. rewrite <- Hid. now apply in_map.
    - unfold whereIdUser. subst r. simpl. now rewrite !String.eqb_refl. }
  unfold serve, testRoute, bind, destructure, routingRule_findFirst,
    checkConditionsOn.
  simpl. rewrite Hfind. reflexivity.
Qed.

Lemma created_rule_can_be_tested_witness :
  let rt := sampleRuntime unreachable in
  let request :=
    mkRequest "u1" ""
      (VObject [("name", VString "Team");
                ("conditions",
                 VArray [VObject [("type", VString "contains");
                                  ("value", VString "team")]]);
                ("actions", VArray [])]) in
  let d := mkRouteData "Team" [mkCondition "contains" "team"] [] 0 in
  createRouteSchema (body request) = inr d
  /\ fitsInteger (dataPriority d) = true
  /\ ~ In "r1" (map ruleId (routingRule emptyWorld))
  /\ fst (serve rt (testRoute (mkRequest "u1" "r1"
                                 (VObject [("content",
                                            VString "Tell the TEAM")])))
            (snd (serve rt (createRoute (fun _ => "r1") (fun _ => 7) request)
                    emptyWorld)))
     = mkReply 200
         (VObject [("matches", VBool true);
                   ("route", VObject [("name", VString "Team");
                                      ("actions", VArray [])])]).
Proof.
  intros rt request d. split; [reflexivity|]. split; [reflexivity|].
  split; [intros []|].
  exact (f_equal fst
           (created_rule_can_be_tested rt (fun _ => "r1") (fun _ => 7)
              request emptyWorld d "Tell the TEAM" eq_refl eq_refl
              (fun H : False => H))).
Defined.

(** *** Listing *)

Lemma insertByPriority_perm r l : Permutation (r :: l) (insertByPriority r l).
Proof.
  induction l as [|x l IH]; simpl; [reflexivity|].
  destruct (priority x <=? priority r)%Z; [reflexivity|].
  rewrite perm_swap. now constructor.
Qed.

Lemma orderByPriorityDesc_perm l : Permutation l (orderByPriorityDesc l).
Proof.
  induction l as [|r l IH]; simpl; [constructor|].
  rewrite <- insertByPriority_perm. now constructor.
Qed.

Lemma insertByPriority_sorted r l :
  StronglySorted byPriorityDesc l ->
  StronglySorted byPriorityDesc (insertByPriority r l).
Proof.
  induction 1 as [|x l Hs IH Hx]; simpl.
  - repeat constructor.
  - destruct (Z.leb_spec (priority x) (priority r)) as [Hle | Hlt].
    + constructor; [now constructor|]. constructor; [exact Hle|].
      eapply Forall_impl; [|exact Hx]. unfold byPriorityDesc. intros; lia.
    + constructor; [exact IH|].
      apply (Permutation_Forall (insertByPriority_perm r l)).
      constructor; [unfold byPriorityDesc; lia | exact Hx].
Qed.

Lemma orderByPriorityDesc_sorted l :
  StronglySorted byPriorityDesc (orderByPriorityDesc l).
Proof.
  induction l as [|r l IH]; simpl; [constructor|].
  now apply insertByPriority_sorted.
Qed.

(** X9: the listing sends back exactly the caller's rules, each once,
    by descending priority, enabled or not, and changes nothing. *)
Theorem listRoutes_sorted_and_own (rt : Runtime) (request : Request)
    (w : World) :
  exists routes,
    serve rt (listRoutes request) w
    = (mkReply 200 (VObject [("routes", VArray (map ruleJson routes))]), w)
    /\ Permutation routes
         (filter (fun r => (ruleUserId r =? user request)%string)
                 (routingRule w))
    /\ StronglySorted byPriorityDesc routes
    /\ (forall r, In r routes
                  <-> In r (routingRule w) /\ ruleUserId r = user request).
Proof.
  eexists. split; [apply listRoutes_done|]. split; [|split].
  - symmetry. apply orderByPriorityDesc_perm.
  - apply orderByPriorityDesc_sorted.
  - intros r.
    pose proof (filter_In (fun x => (ruleUserId x =? user request)%string)
                  r (routingRule w)) as Hf.
    simpl in Hf. rewrite String.eqb_eq in Hf. rewrite <- Hf.
    split; intros H.
    + eapply Permutation_in; [|exact H].
      symmetry. apply orderByPriorityDesc_perm.
    + eapply Permutation_in; [|exact H]. apply orderByPriorityDesc_perm.
Qed.

End RouteCrudFacts.

(** ** Key validation *)

Module ProviderFacts.
Import Str Js Webhooks Providers.

Lemma prop_world v k w : snd (prop v k w) = w.
Proof. now destruct v. Qed.

Lemma includesGpt_world id w : snd (includesGpt id w) = w.
Proof. now destruct id. Qed.

Lemma asArray_world v w : snd (asArray v w) = w.
Proof. now destruct v. Qed.

Lemma json_world parse body w : snd (json parse body w) = w.
Proof.
  unfold json, bind, text. destruct body as [e | txt]; [reflexivity|].
  simpl. now destruct (parse txt).
Qed.

Lemma filterGpt_world items w : snd (filterGpt items w) = w.
Proof.
  induction items as [|m rest IH]; [reflexivity|].
  simpl. unfold bind.
  pose proof (prop_world m "id" w) as Hp.
  destruct (prop m "id" w) as [[id | e] w1]; simpl in Hp; subst;
    [|reflexivity].
  pose proof (includesGpt_world id w) as Hi.
  destruct (includesGpt id w) as [[keep | e] w1]; simpl in Hi; subst;
    [|reflexivity].
  destruct (filterGpt rest w) as [[kept | e] w1]; simpl in *; subst;
    reflexivity.
Qed.

(** What follows a 2xx answer in [validateOpenAI]: the world is left
    alone, and a result is a valid key with at most ten models. *)
Lemma models_read parse body w :
  exists c,
    (data <- json parse body ;;
     all <- prop data "data" ;;
     items <- asArray all ;;
     kept <- filterGpt items ;;
     ret (true, firstn 10 (map (fun m => optProp m "id") kept)))%js w
    = (c, w)
    /\ match c with
       | Normal result => fst result = true /\ List.length (snd result) <= 10
       | Abrupt _ => True
       end.
Proof.
  unfold bind.
  pose proof (json_world parse body w) as H1.
  destruct (json parse body w) as [[data | e] w1]; simpl in H1; subst;
    [|eexists; split; [reflexivity | exact I]].
  pose proof (prop_world data "data" w) as H2.
  destruct (prop data "data" w) as [[all | e] w1]; simpl in H2; subst;
    [|eexists; split; [reflexivity | exact I]].
  pose proof (asArray_world all w) as H3.
  destruct (asArray all w) as [[items | e] w1]; simpl in H3; subst;
    [|eexists; split; [reflexivity | exact I]].
  pose proof (filterGpt_world items w) as H4.
  destruct (filterGpt items w) as [[kept | e] w1]; simpl in H4; subst;
    [|eexists; split; [reflexivity | exact I]].
  eexists. split; [reflexivity|]. cbn [fst snd].
  split; [reflexivity | apply firstn_le_length].
Qed.

(** [validateOpenAI] returns, whatever happens, after its one request. *)
Lemma validateOpenAI_returns rt parse apiKey w :
  exists result,
    validateOpenAI rt parse apiKey w
    = (Normal result, withSent w (openaiRequest apiKey)).
Proof.
  unfold validateOpenAI, tryCatch. unfold bind at 1. unfold fetch.
  fold (withSent w (openaiRequest apiKey)).
  destruct (network rt (sent w) (openaiRequest apiKey)) as [st body | e];
    [|now eexists].
  destruct (ok st); cbn [negb]; cbv beta iota; [|now eexists].
  destruct (models_read parse body (withSent w (openaiRequest apiKey)))
    as ([result | e] & -> & _); now eexists.
Qed.

(** The filter on a list whose elements are all searchable keeps the
    elements that name [gpt]; on any other list it throws. *)
Lemma filterGpt_searchable items w :
  forallb searchable items = true ->
  filterGpt items w = (Normal (filter namesGpt items), w).
Proof.
  induction items as [|m rest IH]; [reflexivity|].
  cbn [forallb]. intros H. apply andb_true_iff in H as [Hm Hrest].
  cbn [filterGpt filter]. unfold bind.
  destruct m as [| | | | | |fields]; try discriminate Hm.
  unfold searchable in Hm. unfold namesGpt. cbn [prop optProp ret].
  destruct (lookup "id" fields) as [| | | |s|ids|]; try discriminate Hm;
    cbn [includesGpt ret]; rewrite (IH Hrest); reflexivity.
Qed.

Lemma filterGpt_unsearchable items w :
  forallb searchable items = false ->
  exists e, filterGpt items w = (Abrupt e, w).
Proof.
  induction items as [|m rest IH]; [discriminate|].
  cbn [forallb]. intros H. cbn [filterGpt]. unfold bind.
  destruct (searchable m) eqn:Hm.
  - destruct (IH H) as [e He].
    destruct m as [| | | | | |fields]; try discriminate Hm.
    unfold searchable in Hm. cbn [prop optProp ret].
    destruct (lookup "id" fields) as [| | | |s|ids|]; try discriminate Hm;
      cbn [includesGpt ret]; rewrite He; now exists e.
  - destruct m as [| | | | | |fields]; cbn [prop optProp ret includesGpt];
      try (eexists; reflexivity).
    unfold searchable in Hm.
    destruct (lookup "id" fields) as [| | | |s|ids|]; try discriminate Hm;
      cbn [includesGpt]; eexists; reflexivity.
Qed.

(** What follows a 2xx answer in [validateOpenAI], by the body: a text
    that decodes to a value of the expected shape gives the models that
    name [gpt]; anything else throws. *)
Lemma models_listed parse body w :
  (data <- json parse body ;;
   all <- prop data "data" ;;
   items <- asArray all ;;
   kept <- filterGpt items ;;
   ret (true, firstn 10 (map (fun m => optProp m "id") kept)))%js w
  = match body with
    | inr txt =>
        match parse txt with
        | inr data =>
            match listed data with
            | Some items =>
                (Normal (true,
                         firstn 10 (map (fun m => optProp m "id")
                                        (filter namesGpt items))), w)
            | None =>
                (data <- ret data ;;
                 all <- prop data "data" ;;
                 items <- asArray all ;;
                 kept <- filterGpt items ;;
                 ret (true, firstn 10 (map (fun m => optProp m "id") kept)))%js
                  w
            end
        | inl e => (Abrupt e, w)
        end
    | inl e => (Abrupt e, w)
    end.
Proof.
  unfold json, text. destruct body as [e | txt]; [reflexivity|].
  unfold bind at 1. unfold bind at 1. cbn [ret].
  destruct (parse txt) as [e | data]; [reflexivity|].
  destruct (listed data) as [items|] eqn:Hl; [|reflexivity].
  unfold listed in Hl. destruct data as [| | | | | |fields]; try discriminate.
  unfold bind. cbn [ret prop optProp].
  destruct (lookup "data" fields) as [| | | | |all|]; try discriminate.
  destruct (forallb searchable all) eqn:Hall; [|discriminate].
  inversion Hl; subst. cbn [asArray ret].
  now rewrite (filterGpt_searchable _ _ Hall).
Qed.

Lemma models_unlisted data w :
  listed data = None ->
  exists e,
    (data <- ret data ;;
     all <- prop data "data" ;;
     items <- asArray all ;;
     kept <- filterGpt items ;;
     ret (true, firstn 10 (map (fun m => optProp m "id") kept)))%js w
    = (Abrupt e, w).
Proof.
  intros Hl. unfold bind. cbn [ret].
  destruct data as [| | | | | |fields]; cbn [prop optProp ret asArray];
    try (eexists; reflexivity).
  unfold listed in Hl.
  destruct (lookup "data" fields) as [| | | | |all|];
    cbn [asArray ret]; try (eexists; reflexivity).
  destruct (forallb searchable all) eqn:Hall; [discriminate|].
  destruct (filterGpt_unsearchable all w Hall) as [e ->]. now exists e.
Qed.

(** X10: [validateOpenAI] never throws. It sends exactly one request, to
    the models endpoint with the key as bearer token, and gives back at
    most ten models. The key is reported valid exactly when the answer
    is 2xx and its body is read and decodes to an object with an array
    under [data] whose elements are objects with a string or an array as
    [id]; the models are then the first ten of the [id]s that hold
    [gpt]. In every other case (a rejected request, another status, a
    body that cannot be read, is not JSON or not of this shape) the key
    is reported invalid, with no models. *)
Theorem validateOpenAI_never_throws (rt : Runtime)
    (parse : string -> Exn + Value) (apiKey : string) (w : World) :
  exists valid models,
    validateOpenAI rt parse apiKey w
    = (Normal (valid, models),
       mkWorld (routingRule w) (messageLog w)
         (sent w ++ [mkHttpRequest "https://api.openai.com/v1/models" "GET"
                       [("Authorization", ("Bearer " ++ apiKey)%string)]
                       None]))
    /\ List.length models <= 10
    /\ (valid = false -> models = [])
    /\ (valid = true
        <-> exists st txt data items,
              network rt (sent w) (openaiRequest apiKey)
              = Responded st (inr txt)
              /\ ok st = true
              /\ parse txt = inr data
              /\ listed data = Some items)
    /\ (forall st txt data items,
          network rt (sent w) (openaiRequest apiKey) = Responded st (inr txt) ->
          ok st = true -> parse txt = inr data -> listed data = Some items ->
          valid = true
          /\ models = firstn 10 (map (fun m => optProp m "id")
                                     (filter namesGpt items))).
Proof.
  unfold validateOpenAI, tryCatch. unfold bind at 1. unfold fetch.
  fold (openaiRequest apiKey). fold (withSent w (openaiRequest apiKey)).
  destruct (network rt (sent w) (openaiRequest apiKey))
    as [st [e | txt] | e].
  - exists false, [].
    split.
    + destruct (ok st) eqn:Hst; cbn [negb]; cbv beta iota; [|reflexivity].
      rewrite models_listed. reflexivity.
    + split; [simpl; lia|]. split; [reflexivity|]. split.
      * split; [discriminate|]. intros (st' & txt & d & i & H & _).
        discriminate H.
      * intros st' txt d i H. discriminate H.
  - destruct (ok st) eqn:Hst; cbn [negb]; cbv beta iota.
    + rewrite models_listed.
      destruct (parse txt) as [e | data] eqn:Hp.
      * exists false, []. split; [reflexivity|].
        split; [simpl; lia|]. split; [reflexivity|]. split.
        -- split; [discriminate|].
           intros (st' & txt' & d & i & H & _ & Hp' & _).
           inversion H; subst. congruence.
        -- intros st' txt' d i H _ Hp' _. inversion H; subst. congruence.
      * destruct (listed data) as [items|] eqn:Hl.
        -- exists true. eexists. split; [reflexivity|].
           split; [apply firstn_le_length|]. split; [discriminate|]. split.
           ++ split; [|reflexivity]. intros _. now exists st, txt, data, items.
           ++ intros st' txt' d i H _ Hp' Hl'. inversion H; subst.
              rewrite Hp in Hp'. inversion Hp'; subst.
              rewrite Hl in Hl'. inversion Hl'; subst. auto.
        -- destruct (models_unlisted data (withSent w (openaiRequest apiKey))
                       Hl) as [e ->].
           exists false, []. split; [reflexivity|].
           split; [simpl; lia|]. split; [reflexivity|]. split.
           ++ split; [discriminate|].
              intros (st' & txt' & d & i & H & _ & Hp' & Hl').
              inversion H; subst. rewrite Hp in Hp'. inversion Hp'; subst.
              congruence.
           ++ intros st' txt' d i H _ Hp' Hl'. inversion H; subst.
              rewrite Hp in Hp'. inversion Hp'; subst. congruence.
    + exists false, []. split; [reflexivity|].
      split; [simpl; lia|]. split; [reflexivity|]. split.
      * split; [discriminate|].
        intros (st' & txt' & d & i & H & Hok & _). inversion H; subst.
        congruence.
      * intros st' txt' d i H Hok. inversion H; subst. congruence.
  - exists false, []. split; [reflexivity|].
    split; [simpl; lia|]. split; [reflexivity|]. split.
    + split; [discriminate|]. intros (st' & txt & d & i & H & _).
      discriminate H.
    + intros st' txt d i H. discriminate H.
Qed.

Lemma filterGpt_model_list ids w :
  filterGpt (map (fun id => VObject [("id", VString id)]) ids) w
  = (Normal (map (fun id => VObject [("id", VString id)])
               (filter (fun id => includes id "gpt") ids)), w).
Proof.
  induction ids as [|id ids IH]; [reflexivity|].
  simpl. unfold bind. simpl. rewrite IH. simpl.
  now destruct (includes id "gpt").
Qed.

(** X11: on a 2xx answer whose body is a list of models with string
    ids, [validateOpenAI] reports the key valid and gives the ids that
    contain [gpt], as written (the search is case-sensitive), in the
    order of the answer, the first ten of them. *)
Theorem validateOpenAI_lists_gpt_models (rt : Runtime)
    (parse : string -> Exn + Value) (apiKey : string) (w : World)
    (st : nat) (txt : string) (ids : list string)
    (Hnet : network rt (sent w) (openaiRequest apiKey)
            = Responded st (inr txt))
    (Hst : ok st = true)
    (Hjson : parse txt = inr (modelList ids)) :
  validateOpenAI rt parse apiKey w
  = (Normal (true,
             map VString
               (firstn 10 (filter (fun id => includes id "gpt") ids))),
     withSent w (openaiRequest apiKey)).
Proof.
  unfold validateOpenAI, tryCatch. unfold bind at 1. unfold fetch.
  rewrite Hnet, Hst. cbn [negb]. cbv beta iota.
  unfold bind at 1. unfold json, text. unfold bind at 1.
  cbn [ret]. cbv beta iota. rewrite Hjson.
  unfold bind at 1. cbn [prop modelList ret optProp lookup String.eqb
                         Ascii.eqb Bool.eqb]. cbv beta iota.
  unfold bind at 1. cbn [asArray ret]. cbv beta iota.
  unfold bind. rewrite filterGpt_model_list. cbn [ret].
  rewrite map_map. cbn [optProp lookup String.eqb Ascii.eqb Bool.eqb].
  now rewrite firstn_map.
Qed.

Lemma validateOpenAI_lists_gpt_models_witness :
  let rt := sampleRuntime (answering 200) in
  let parse := fun _ : string =>
    inr (modelList ["gpt-4o"; "whisper-1"; "GPT-J"; "chatgpt-4o-latest"])
    : Exn + Value in
  network rt (sent emptyWorld) (openaiRequest "sk-1") = Responded 200 (inr "")
  /\ ok 200 = true
  /\ parse "" = inr (modelList ["gpt-4o"; "whisper-1"; "GPT-J";
                                "chatgpt-4o-latest"])
  /\ fst (validateOpenAI rt parse "sk-1" emptyWorld)
     = Normal (true, [VString "gpt-4o"; VString "chatgpt-4o-latest"]).
Proof.
  intros rt parse.
  split; [reflexivity|]. split; [reflexivity|]. split; [reflexivity|].
  exact (f_equal fst
           (validateOpenAI_lists_gpt_models rt parse "sk-1" emptyWorld 200 ""
              ["gpt-4o"; "whisper-1"; "GPT-J"; "chatgpt-4o-latest"]
              eq_refl eq_refl eq_refl)).
Defined.

(** [validateAnthropic] returns, whatever happens, after its one
    request. *)
Lemma validateAnthropic_returns rt apiKey w :
  exists result,
    validateAnthropic rt apiKey w
    = (Normal result, withSent w (anthropicRequest apiKey)).
Proof.
  unfold validateAnthropic, tryCatch, bind, fetch.
  fold (withSent w (anthropicRequest apiKey)).
  destruct (network rt (sent w) (anthropicRequest apiKey)) as [st body | e];
    [destruct (ok st)|]; now eexists.
Qed.

(** X12: [validateAnthropic] never throws, sends one request with the
    key in [x-api-key], and reports the key valid exactly when the
    answer is 2xx, with the two fixed model names then and none
    otherwise: the key is never checked against the list that comes
    back. *)
Theorem validateAnthropic_valid_iff_ok (rt : Runtime) (apiKey : string)
    (w : World) :
  exists valid models,
    validateAnthropic rt apiKey w
    = (Normal (valid, models), withSent w (anthropicRequest apiKey))
    /\ (valid = true
        <-> exists st txt,
              network rt (sent w) (anthropicRequest apiKey)
              = Responded st txt
              /\ ok st = true)
    /\ models = (if valid
                 then [VString "claude-3-5-sonnet"; VString "claude-3-opus"]
                 else []).
Proof.
  unfold validateAnthropic, tryCatch, bind, fetch.
  fold (withSent w (anthropicRequest apiKey)).
  destruct (network rt (sent w) (anthropicRequest apiKey)) as [st body | e].
  - destruct (ok st) eqn:Hst; simpl.
    + exists true. eexists. repeat split; eauto.
    + exists false. eexists. repeat split; try discriminate.
      intros (st' & txt & H & Hok). inversion H; subst. congruence.
  - exists false. eexists. simpl. repeat split; try discriminate.
    intros (st' & txt & H & _). discriminate.
Qed.

(** X13: the validate route answers 400 or 200 and never fails: 400 with
    the issues for a body that fails the schema, 400 [Unsupported
    provider] for any provider but [openai] and [anthropic] (nothing is
    sent in these two cases), and 200 with the verdict otherwise, after
    one request. It never touches the rules or the log. *)
Theorem validate_always_answers (rt : Runtime)
    (parse : string -> Exn + Value) (request : Request) (w : World) :
  let result := serve rt (validate rt parse request) w in
  routingRule (snd result) = routingRule w
  /\ messageLog (snd result) = messageLog w
  /\ match validateProviderSchema (body request) with
     | inl issues => result = (RouteCrud.invalidInput issues, w)
     | inr (provider, apiKey) =>
         if (provider =? "openai")%string
            || (provider =? "anthropic")%string
         then statusCode (fst result) = 200
              /\ exists r, sent (snd result) = sent w ++ [r]
         else result = (unsupportedProvider, w)
     end.
Proof.
  intros result.
  assert (Hr : result = serve rt (validate rt parse request) w)
    by reflexivity.
  clearbody result.
  unfold serve, validate, tryCatch in Hr. unfold bind at 1 in Hr.
  destruct (validateProviderSchema (body request))
    as [issues | [provider apiKey]]; simpl in Hr; [subst; auto|].
  destruct (provider =? "openai")%string.
  - unfold bind in Hr.
    destruct (validateOpenAI_returns rt parse apiKey w) as (res & Hv).
    rewrite Hv in Hr. subst result. simpl. eauto.
  - destruct (provider =? "anthropic")%string; simpl in *; [|subst; auto].
    unfold bind in Hr.
    destruct (validateAnthropic_returns rt apiKey w) as (res & Hv).
    rewrite Hv in Hr. subst result. simpl. eauto.
Qed.

End ProviderFacts.

(** ** What the channel handlers keep *)

Module WebhookKept.
Import Str StrFacts Js Webhooks Kept WebhookFacts.

Lemma entryOf_sentEntry e request : entryOf e request (sentEntry e request).
Proof. unfold entryOf, sentEntry. simpl. auto. Qed.

Lemma entryOf_failedEntry rt e request caught :
  entryOf e request (failedEntry rt e request caught).
Proof.
  unfold entryOf, failedEntry. simpl. repeat split. right.
  split; [reflexivity | discriminate].
Qed.

(** One request served by one route: the rules stay, at most one request
    goes out and at most one entry is added, which is the caller's. *)
Lemma handler_step rt e request w :
  exists out entries,
    snd (serve rt (handler rt e request) w)
    = mkWorld (routingRule w) (messageLog w ++ entries) (sent w ++ out)
    /\ List.length out <= 1
    /\ List.length entries <= 1
    /\ Forall (entryOf e request) entries
    /\ (callsOut e && validates rt e (body request) = false -> out = []).
Proof.
  destruct (validates rt e (body request)) eqn:Hv;
    destruct (logsFailure e) eqn:Hl.
  - destruct (network_route_outcome rt e request w Hl Hv) as [r ->].
    exists [r].
    destruct (network rt (sent w) r) as [st txt | ex];
      [destruct (ok st)|]; eexists [_]; simpl;
      (split; [reflexivity|]); repeat split; auto;
      try (constructor; [|constructor]);
      try apply entryOf_sentEntry; try apply entryOf_failedEntry;
      destruct e; discriminate.
  - destruct e; try discriminate Hl; simpl handler.
    + rewrite (sms_outcome rt request w Hv). exists []. eexists [_]. simpl.
      rewrite app_nil_r. repeat split; auto.
      constructor; [|constructor]. unfold entryOf. simpl. auto.
    + rewrite (email_outcome rt request w Hv). exists []. eexists [_]. simpl.
      rewrite app_nil_r. repeat split; auto.
      constructor; [|constructor]. unfold entryOf. simpl. auto.
    + destruct (custom_outcome rt request w Hv) as [r ->]. exists [r].
      destruct (network rt (sent w) r) as [st [ex | responseBody] | ex].
      * exists []. simpl. rewrite app_nil_r. repeat split; auto.
        discriminate.
      * eexists [_]. simpl. split; [reflexivity|]. repeat split; auto;
          [|discriminate].
        constructor; [|constructor]. unfold entryOf. simpl.
        destruct (ok st); repeat split; auto.
        right. split; [reflexivity | discriminate].
      * exists []. simpl. rewrite app_nil_r. repeat split; auto.
        discriminate.
  - pose proof (rejected_with_entry rt e request w Hl Hv) as H.
    cbv zeta in H. exists [].
    destruct (storesAsText _ && slicesToText _).
    + rewrite H. eexists [_]. simpl. rewrite app_nil_r.
      repeat split; auto. constructor; [|constructor].
      apply entryOf_failedEntry.
    + destruct H as [e' ->]. exists []. simpl. rewrite !app_nil_r.
      destruct w. repeat split; auto.
  - rewrite (rejected_without_entry rt e request w Hl Hv). exists [], [].
    simpl. rewrite !app_nil_r. destruct w. repeat split; auto.
Qed.

(** X14: whatever the request and whatever the network does, a channel
    route leaves the rules alone, keeps every entry already in the log,
    adds at most one entry and sends at most one request. An entry it
    adds carries the caller's id and the channel of the route, and is
    either [sent] without an error or [failed] with one. Nothing is sent
    for a body that fails the schema, nor by the sms and email routes. *)
Theorem channel_route_footprint (rt : Runtime) (e : Endpoint)
    (request : Request) (w : World) :
  let w' := snd (serve rt (handler rt e request) w) in
  routingRule w' = routingRule w
  /\ (exists entries,
        messageLog w' = messageLog w ++ entries
        /\ List.length entries <= 1
        /\ Forall (entryOf e request) entries)
  /\ (exists out,
        sent w' = sent w ++ out
        /\ List.length out <= 1
        /\ (callsOut e && validates rt e (body request) = false -> out = []))
  /\ (forall entry, In entry (messageLog w') ->
        In entry (messageLog w) \/ entryOf e request entry).
Proof.
  intros w'. subst w'.
  destruct (handler_step rt e request w)
    as (out & entries & Hw & Hout & Hentries & Hof & Hnone).
  rewrite Hw. simpl. split; [reflexivity|].
  split; [now exists entries|]. split; [now exists out|].
  intros entry Hin. apply in_app_or in Hin as [Hold | Hnew].
  - now left.
  - right. now apply (proj1 (Forall_forall _ _) Hof).
Qed.

(** X15: requests served one after the other never lose an entry and
    never change a rule: the log after them is the log before them
    followed by at most one entry for each request, and every request
    has its reply. *)
Theorem serveAll_log_grows (rt : Runtime)
    (requests : list (Endpoint * Request)) (w : World) :
  exists entries,
    messageLog (snd (serveAll rt requests w)) = messageLog w ++ entries
    /\ List.length entries <= List.length requests
    /\ routingRule (snd (serveAll rt requests w)) = routingRule w
    /\ List.length (fst (serveAll rt requests w)) = List.length requests.
Proof.
  revert w. induction requests as [|[e request] rest IH]; intros w.
  - exists []. simpl. rewrite app_nil_r. auto.
  - simpl.
    destruct (handler_step rt e request w)
      as (out & es & Hw & _ & Hes & _).
    destruct (serve rt (handler rt e request) w) as [r w1]. simpl in Hw.
    destruct (IH w1) as (es' & Hlog & Hlen & Hrules & Hreplies).
    destruct (serveAll rt rest w1) as [rs w2]. simpl in *.
    exists (es ++ es'). subst w1. simpl in *.
    rewrite Hlog, Hrules, Hreplies, app_assoc, length_app.
    repeat split; auto. lia.
Qed.

Lemma last_entry {A} (l : list A) x y : l ++ [x] = l ++ [y] -> x = y.
Proof. intros H. apply app_inv_head in H. now inversion H. Qed.

Lemma no_entry {A} (l : list A) x : l = l ++ [x] -> False.
Proof.
  intros H. apply (f_equal (@List.length A)) in H.
  rewrite length_app in H. simpl in H. lia.
Qed.

(** X16: on the four routes that call out, an entry [sent] is written
    only after a 2xx answer: if a request to such a route adds an entry
    with status [sent], then one request went out and the network
    answered it with a status between 200 and 299. *)
Theorem sent_entry_means_2xx (rt : Runtime) (e : Endpoint)
    (request : Request) (w : World) (entry : MessageLog)
    (Hout : callsOut e = true)
    (Hlog : messageLog (snd (serve rt (handler rt e request) w))
            = messageLog w ++ [entry])
    (Hsent : status entry = "sent") :
  exists r st txt,
    sent (snd (serve rt (handler rt e request) w)) = sent w ++ [r]
    /\ network rt (sent w) r = Responded st txt
    /\ ok st = true.
Proof.
  destruct (validates rt e (body request)) eqn:Hv;
    destruct (logsFailure e) eqn:Hl.
  - destruct (network_route_outcome rt e request w Hl Hv) as [r Hs].
    rewrite Hs in *. exists r.
    destruct (network rt (sent w) r) as [st txt | ex];
      [destruct (ok st) eqn:Hst|]; simpl in Hlog;
      apply last_entry in Hlog; subst entry; try discriminate Hsent.
    exists st, txt. auto.
  - destruct e; try discriminate Hl; try discriminate Hout.
    simpl handler in *.
    destruct (custom_outcome rt request w Hv) as [r Hs].
    rewrite Hs in *. exists r.
    destruct (network rt (sent w) r) as [st [ex | responseBody] | ex];
      simpl in Hlog; try (now apply no_entry in Hlog).
    apply last_entry in Hlog. subst entry. simpl in Hsent.
    destruct (ok st) eqn:Hst; [|discriminate]. exists st. eauto.
  - pose proof (rejected_with_entry rt e request w Hl Hv) as H.
    cbv zeta in H. destruct (storesAsText _ && slicesToText _).
    + rewrite H in Hlog. simpl in Hlog. apply last_entry in Hlog.
      subst entry. discriminate.
    + destruct H as [e' H]. rewrite H in Hlog. simpl in Hlog.
      now apply no_entry in Hlog.
  - rewrite (rejected_without_entry rt e request w Hl Hv) in Hlog.
    simpl in Hlog. now apply no_entry in Hlog.
Qed.

Lemma sent_entry_means_2xx_witness :
  let rt := sampleRuntime (answering 204) in
  let request :=
    mkRequest "u1" ""
      (VObject [("content", VString "hi"); ("botToken", VString "t0k");
                ("chatId", VString "42")]) in
  let entry := mkMessageLog "u1" "telegram" "42" "hi" "sent" None in
  callsOut Telegram = true
  /\ messageLog (snd (serve rt (handler rt Telegram request) emptyWorld))
     = messageLog emptyWorld ++ [entry]
  /\ status entry = "sent"
  /\ exists r st txt,
       sent (snd (serve rt (handler rt Telegram request) emptyWorld))
       = sent emptyWorld ++ [r]
       /\ network rt (sent emptyWorld) r = Responded st txt
       /\ ok st = true.
Proof.
  intros rt request entry.
  split; [reflexivity|]. split; [reflexivity|]. split; [reflexivity|].
  exact (sent_entry_means_2xx rt Telegram request emptyWorld entry
           eq_refl eq_refl eq_refl).
Defined.



(** X18: the sms and email routes record a delivery that no provider was
    asked for. A valid request is answered 200 and adds one entry with
    status [sent] and no error, while nothing is sent out, on any
    network. *)
Theorem provider_routes_log_sent_unsent (rt : Runtime) (e : Endpoint)
    (request : Request) (w : World)
    (He : callsOut e = false)
    (Hok : validates rt e (body request) = true) :
  exists reply entry,
    serve rt (handler rt e request) w
    = (reply, mkWorld (routingRule w) (messageLog w ++ [entry]) (sent w))
    /\ statusCode reply = 200
    /\ status entry = "sent"
    /\ error entry = None
    /\ userId entry = user request
    /\ channel entry = channelOf e.
Proof.
  destruct e; try discriminate He; simpl handler.
  - rewrite (sms_outcome rt request w Hok). eexists. eexists.
    split; [reflexivity|]. simpl. auto.
  - rewrite (email_outcome rt request w Hok). eexists. eexists.
    split; [reflexivity|]. simpl. auto.
Qed.

Lemma provider_routes_log_sent_unsent_witness :
  let rt := sampleRuntime unreachable in
  let request :=
    mkRequest "u1" "" (VObject [("content", VString "hi");
                                ("phoneNumber", VString "+100")]) in
  callsOut Sms = false
  /\ validates rt Sms (body request) = true
  /\ exists reply entry,
       serve rt (handler rt Sms request) emptyWorld
       = (reply, mkWorld [] ([] ++ [entry]) [])
       /\ statusCode reply = 200
       /\ status entry = "sent"
       /\ error entry = None
       /\ userId entry = "u1"
       /\ channel entry = "sms".
Proof.
  intros rt request. split; [reflexivity|]. split; [reflexivity|].
  exact (provider_routes_log_sent_unsent rt Sms request emptyWorld
           eq_refl eq_refl).
Defined.

End WebhookKept.

(** ** More on the backend matcher *)

Module MatcherKept.
Import Str StrFacts Js Routes MatcherFacts.

Lemma forallb_permutation {A} (f : A -> bool) l l' :
  Permutation l l' -> forallb f l = forallb f l'.
Proof.
  induction 1 as [| x l l' _ IH | x y l | l l' l'' _ IH1 _ IH2]; simpl.
  - reflexivity.
  - now rewrite IH.
  - now rewrite !andb_assoc, (andb_comm (f y)).
  - now rewrite IH1.
Qed.

(** X19: the order of the conditions of a rule does not matter, nor
    does a condition given twice: rules whose condition lists are
    rearrangements of one another match the same texts. *)
Theorem checkConditions_any_order (text : string)
    (conditions' conditions'' : list Condition)
    (Hperm : Permutation conditions' conditions'') :
  checkConditions text conditions' = checkConditions text conditions''
  /\ (forall c,
        checkConditions text (c :: c :: conditions')
        = checkConditions text (c :: conditions')).
Proof.
  split.
  - rewrite !checkConditions_forallb. now apply forallb_permutation.
  - intros c. rewrite !checkConditions_cons.
    now destruct (evaluate text c).
Qed.

Lemma checkConditions_any_order_witness :
  let a := mkCondition "contains" "invoice" in
  let b := mkCondition "starts_with" "please" in
  Permutation [a; b] [b; a]
  /\ checkConditions "Please process this invoice" [a; b]
     = checkConditions "Please process this invoice" [b; a].
Proof.
  intros a b. split; [apply perm_swap|].
  exact (proj1 (checkConditions_any_order "Please process this invoice"
                  [a; b] [b; a] (perm_swap b a []))).
Defined.

(** *** Lower-casing goes through splitting and trimming *)

Lemma toLowerCaseUnit_comma c :
  Ascii.eqb (toLowerCaseUnit c) "," = Ascii.eqb c ",".
Proof. destruct c as [[] [] [] [] [] [] [] []]; reflexivity. Qed.

Lemma toLowerCaseUnit_space c :
  isWhiteSpace (toLowerCaseUnit c) = isWhiteSpace c.
Proof. destruct c as [[] [] [] [] [] [] [] []]; reflexivity. Qed.

Lemma split_toLowerCase s :
  split "," (toLowerCase s) = map toLowerCase (split "," s).
Proof.
  induction s as [|c s IH]; [reflexivity|].
  simpl. rewrite toLowerCaseUnit_comma, IH.
  destruct (Ascii.eqb c ","); [reflexivity|].
  pose proof (split_nonempty "," s) as Hne.
  destruct (split "," s); [contradiction | reflexivity].
Qed.

Lemma trimStart_toLowerCase s :
  trimStartBy isWhiteSpace (toLowerCase s)
  = toLowerCase (trimStartBy isWhiteSpace s).
Proof.
  induction s as [|c s IH]; [reflexivity|].
  simpl. rewrite toLowerCaseUnit_space.
  now destruct (isWhiteSpace c).
Qed.

Lemma trimEnd_toLowerCase s :
  trimEndBy isWhiteSpace (toLowerCase s)
  = toLowerCase (trimEndBy isWhiteSpace s).
Proof.
  induction s as [|c s IH]; [reflexivity|].
  simpl. rewrite IH, toLowerCaseUnit_space.
  destruct (trimEndBy isWhiteSpace s); simpl;
    [now destruct (isWhiteSpace c) | reflexivity].
Qed.

Lemma trim_toLowerCase s : trim (toLowerCase s) = toLowerCase (trim s).
Proof.
  unfold trim, trimBy. now rewrite trimStart_toLowerCase, trimEnd_toLowerCase.
Qed.

Lemma keywords_of_lower v :
  map (fun k => toLowerCase (trim k)) (split "," v)
  = map trim (split "," (toLowerCase v)).
Proof.
  rewrite split_toLowerCase, map_map. apply map_ext. intros k.
  symmetry. apply trim_toLowerCase.
Qed.

(** X20: keyword matching ignores letter case on both sides: two texts,
    and two keyword lists, that differ only in the case of their letters
    give the same result. *)
Theorem keyword_ignores_case (text v text' v' : string)
    (Htext : sameIgnoringCase text text') (Hv : sameIgnoringCase v v') :
  evaluate text' (mkCondition "keyword" v')
  = evaluate text (mkCondition "keyword" v).
Proof.
  unfold sameIgnoringCase in *.
  rewrite !evaluate_keyword, !keywords_of_lower, Htext, Hv. reflexivity.
Qed.

Lemma keyword_ignores_case_witness :
  sameIgnoringCase "I need HELP" "i Need help"
  /\ sameIgnoringCase "Urgent, Help" "URGENT, help"
  /\ evaluate "i Need help" (mkCondition "keyword" "URGENT, help")
     = evaluate "I need HELP" (mkCondition "keyword" "Urgent, Help").
Proof.
  split; [reflexivity|]. split; [reflexivity|].
  exact (keyword_ignores_case "I need HELP" "Urgent, Help" "i Need help"
           "URGENT, help" eq_refl eq_refl).
Defined.

(** X21: [starts_with] is the stricter test: a text that passes
    [starts_with] for a value passes [contains] for it, so a rule with
    both conditions on one value matches what the [starts_with] alone
    matches. *)
Theorem starts_with_implies_contains (text v : string)
    (Hstarts : evaluate text (mkCondition "starts_with" v) = true) :
  evaluate text (mkCondition "contains" v) = true
  /\ checkConditions text [mkCondition "starts_with" v;
                           mkCondition "contains" v] = true.
Proof.
  assert (Hc : evaluate text (mkCondition "contains" v) = true).
  { rewrite evaluate_starts_with, startsWith_spec in Hstarts.
    rewrite evaluate_contains, includes_spec.
    destruct Hstarts as [rest Hr]. now exists EmptyString, rest. }
  split; [exact Hc|].
  rewrite checkConditions_cons, Hstarts. exact Hc.
Qed.

Lemma starts_with_implies_contains_witness :
  evaluate "Please review" (mkCondition "starts_with" "PLEASE") = true
  /\ evaluate "Please review" (mkCondition "contains" "PLEASE") = true.
Proof.
  split; [reflexivity|].
  exact (proj1 (starts_with_implies_contains "Please review" "PLEASE"
                  eq_refl)).
Defined.

Lemma includes_empty s : includes s "" = true.
Proof. now destruct s. Qed.

(** X22: a keyword list with a blank piece matches every text. When the
    value is empty, ends with a comma, or holds only white space between
    two commas, the blank piece trims to the empty token, which every
    text contains; the same holds for [contains] and [starts_with] with
    an empty value. *)
Theorem blank_keyword_matches_all (v piece : string)
    (Hpiece : In piece (split "," v)) (Hblank : trim piece = "") :
  (forall text, evaluate text (mkCondition "keyword" v) = true)
  /\ (forall text, evaluate text (mkCondition "contains" "") = true)
  /\ (forall text, evaluate text (mkCondition "starts_with" "") = true).
Proof.
  split; [|split]; intros text.
  - rewrite evaluate_keyword. apply existsb_exists.
    exists (toLowerCase (trim piece)). split.
    + apply in_map_iff. now exists piece.
    + rewrite Hblank. apply includes_empty.
  - rewrite evaluate_contains. apply includes_empty.
  - rewrite evaluate_starts_with. reflexivity.
Qed.

Lemma blank_keyword_matches_all_witness :
  In " " (split "," "urgent, ,asap")
  /\ trim " " = ""
  /\ (forall text,
        evaluate text (mkCondition "keyword" "urgent, ,asap") = true).
Proof.
  split; [simpl; auto|]. split; [reflexivity|].
  exact (proj1 (blank_keyword_matches_all "urgent, ,asap" " "
                  (or_intror (or_introl eq_refl)) eq_refl)).
Defined.

End MatcherKept.

(** ** More on the mobile router and on the test handler *)

Module MobileKept.
Import Str Mobile Observed MobileFacts.

Lemma posted_app t1 t2 : posted (t1 ++ t2) = posted t1 ++ posted t2.
Proof.
  induction t1 as [|[a c|u j] t1 IH]; simpl; [reflexivity|assumption|].
  now rewrite IH.
Qed.

Lemma posted_executeAction URL action content trace :
  posted (executeAction URL action content trace)
  = posted trace
    ++ (if reaches URL action then [(destination action, content)] else []).
Proof.
  unfold executeAction, reaches, sendToDiscord, sendToTelegram, sendSMS,
    sendEmail, sendToSlack, sendToWebhook.
  destruct (channel action); try destruct (URL _);
    rewrite ?posted_app; simpl; now rewrite ?app_nil_r.
Qed.

Lemma posted_executeActions URL actions' content trace :
  posted (executeActions URL actions' content trace)
  = posted trace
    ++ map (fun ac => (destination (fst ac), snd ac))
         (filter (fun ac => reaches URL (fst ac))
                 (map (fun a => (a, content)) actions')).
Proof.
  revert trace. induction actions' as [|a rest IH]; intros trace; simpl.
  - now rewrite app_nil_r.
  - rewrite IH, posted_executeAction, <- app_assoc.
    now destruct (reaches URL a).
Qed.

(** X23: of the six channels the client delivers on one. Routing posts
    the content to the destination of each executed action whose channel
    is discord and whose destination parses as a URL, in order, and
    sends nothing for any other action: telegram, sms, email, slack and
    webhook actions are executed without a request. *)
Theorem only_discord_is_posted
    (stringContains : string -> string -> bool) (URL : string -> bool)
    (response : string) (rules : list RoutingRule) (trace : list Event) :
  posted (routeResponse stringContains URL response rules trace)
  = posted trace
    ++ map (fun ac => (destination (fst ac), snd ac))
         (filter (fun ac => reaches URL (fst ac))
                 (fanOut stringContains response rules)).
Proof.
  revert trace. induction rules as [|r rules IH]; intros trace; simpl.
  - now rewrite app_nil_r.
  - unfold fanOut in *. simpl.
    destruct (isEnabled r); [destruct (matchesRule _ _ _)|]; simpl;
      rewrite IH; [|reflexivity|reflexivity].
    rewrite posted_executeActions, filter_app, map_app, <- app_assoc.
    reflexivity.
Qed.

Lemma matchesConditions_app stringContains text before after :
  matchesConditions stringContains text (before ++ after)
  = matchesConditions stringContains text before
    && matchesConditions stringContains text after.
Proof.
  induction before as [|c before IH]; [reflexivity|].
  simpl. destruct (type c); try exact IH;
    match goal with
    | |- context [if negb ?b then _ else _] => destruct b
    end; simpl; auto.
Qed.

(** X24: the client's matcher looks at [contains] and [keyword]
    conditions only. A condition of another type ([starts_with] among
    them) can be taken out of a rule without changing what the rule
    matches, and a rule made of such conditions alone matches every
    text. *)
Theorem client_skips_other_types
    (stringContains : string -> string -> bool) (text : string)
    (c : Condition) (before after : list Condition)
    (Htype : hasClientCase (type c) = false) :
  matchesConditions stringContains text (before ++ c :: after)
  = matchesConditions stringContains text (before ++ after)
  /\ (forall others,
        forallb (fun x => negb (hasClientCase (type x))) others = true ->
        matchesConditions stringContains text others = true).
Proof.
  split.
  - rewrite !matchesConditions_app. simpl.
    now destruct (type c); try discriminate Htype.
  - induction others as [|x others IH]; [reflexivity|]. simpl.
    intros H. apply andb_true_iff in H as [Hx Hrest].
    destruct (type x); try discriminate Hx; auto.
Qed.

Lemma client_skips_other_types_witness :
  let c := mkCondition startsWith "please" in
  hasClientCase (type c) = false
  /\ matchesConditions includes "Thanks for the invoice"
       ([mkCondition contains "invoice"] ++ c :: [])
     = matchesConditions includes "Thanks for the invoice"
         ([mkCondition contains "invoice"] ++ []).
Proof.
  intros c. split; [reflexivity|].
  exact (proj1 (client_skips_other_types includes "Thanks for the invoice" c
                  [mkCondition contains "invoice"] [] eq_refl)).
Defined.

(** X25: where the client has the backend's cases, the two matchers
    differ by the search of their platforms alone. On a rule made of
    [sentiment], [time_of_day] and [contains] conditions, and a text on
    which [String.contains] answers for each value as
    [String.prototype.includes] does, the client and the backend give
    the same result; so the client executes the actions of such a rule,
    when it is enabled, exactly when the backend's test of the rule
    answers that it matches. *)
Theorem matchers_agree_on_shared_cases
    (stringContains : string -> string -> bool)
    (text : string) (rule : RoutingRule)
    (Hshared :
       Forall (fun c => type c = sentiment \/ type c = timeOfDay
                        \/ (type c = contains
                            /\ stringContains (toLowerCase text)
                                 (toLowerCase (value c))
                               = includes (toLowerCase text)
                                   (toLowerCase (value c))))
              (conditions rule)) :
  matchesRule stringContains text rule
  = Routes.checkConditions text (map toBackend (conditions rule))
  /\ (isEnabled rule = true ->
      forall URL trace,
        executed (routeResponse stringContains URL text [rule] trace)
        = executed trace
          ++ (if Routes.checkConditions text
                   (map toBackend (conditions rule))
              then map (fun a => (a, text)) (actions rule)
              else [])).
Proof.
  assert (Hsame : matchesRule stringContains text rule
                  = Routes.checkConditions text
                      (map toBackend (conditions rule))).
  { unfold matchesRule. now apply matchers_agree_on_contains. }
  split; [exact Hsame|].
  intros Hon URL trace. rewrite executed_routeResponse.
  unfold fanOut. simpl. rewrite Hon, Hsame. simpl.
  now rewrite app_nil_r.
Qed.

Lemma matchers_agree_on_shared_cases_witness :
  let swiftContains := fun s other : string =>
    if (other =? "")%string then false else includes s other in
  let cs := [mkCondition contains "Team"; mkCondition sentiment "calm"] in
  let rule := mkRoutingRule "1" "team" cs [mkAction slack "https://h/x"]
                true in
  let text := "Send update to the team" in
  Forall (fun c => type c = sentiment \/ type c = timeOfDay
                   \/ (type c = contains
                       /\ swiftContains (toLowerCase text)
                            (toLowerCase (value c))
                          = includes (toLowerCase text)
                              (toLowerCase (value c))))
         (conditions rule)
  /\ matchesRule swiftContains text rule
     = Routes.checkConditions text (map toBackend cs).
Proof.
  intros swiftContains cs rule text.
  assert (H : Forall (fun c => type c = sentiment \/ type c = timeOfDay
                   \/ (type c = contains
                       /\ swiftContains (toLowerCase text)
                            (toLowerCase (value c))
                          = includes (toLowerCase text)
                              (toLowerCase (value c))))
                (conditions rule)).
  { constructor; [right; right; split; reflexivity|].
    constructor; [now left | constructor]. }
  split; [exact H|].
  exact (proj1 (matchers_agree_on_shared_cases swiftContains text rule H)).
Defined.

(** *** The whole trace of a routing *)







End MobileKept.

Module TestRouteKept.
Import Str Js Routes RouteFacts.

(** X26: the test route answers 404 for a rule the caller does not own.
    When every rule stored under the id belongs to another caller, or
    none is stored, a request with an object as body is answered [Route
    not found] whatever its content is, a content that is missing or no
    string too, and the world stays as it was. *)
Theorem testRoute_hides_foreign_rules (rt : Runtime) (request : Request)
    (w : World) (fields : list (string * Value))
    (Hbody : body request = VObject fields)
    (Hforeign : forall r, In r (routingRule w) ->
                          ruleId r = paramId request ->
                          ruleUserId r <> user request) :
  serve rt (testRoute request) w
  = (mkReply 404 (VObject [("error", VBool true);
                           ("message", VString "Route not found")]), w).
Proof.
  apply testRoute_not_found with (fields := fields); [exact Hbody|].
  destruct (find _ _) as [r|] eqn:Hf; [|reflexivity].
  apply find_some in Hf as [Hin Hhit]. unfold whereIdUser in Hhit.
  apply andb_true_iff in Hhit as [Hid Hu].
  apply String.eqb_eq in Hid, Hu.
  now destruct (Hforeign r Hin Hid).
Qed.

Lemma testRoute_hides_foreign_rules_witness :
  let rt := Webhooks.sampleRuntime Webhooks.unreachable in
  let theirs := mkRoutingRule "r2" "u2" "Theirs" [] (VArray []) 3 true 0 0 in
  let w := mkWorld [theirs] [] [] in
  let request := mkRequest "u1" "r2" (VObject [("content", VNumber 5)]) in
  body request = VObject [("content", VNumber 5)]
  /\ (forall r, In r (routingRule w) -> ruleId r = paramId request ->
                ruleUserId r <> user request)
  /\ serve rt (testRoute request) w
     = (mkReply 404 (VObject [("error", VBool true);
                              ("message", VString "Route not found")]), w).
Proof.
  intros rt theirs w request.
  assert (H : forall r, In r (routingRule w) -> ruleId r = paramId request ->
                        ruleUserId r <> user request).
  { intros r [<- | []] _. discriminate. }
  split; [reflexivity|]. split; [exact H|].
  exact (testRoute_hides_foreign_rules rt request w
           [("content", VNumber 5)] eq_refl H).
Defined.

(** X27: the test route does not validate its body. For a rule of the
    caller, a content that is missing or is no string makes the matcher
    throw, and the request is answered by the error handler with status
    500 and the message of the [TypeError], not with a validation reply:
    for a missing content the message of a read on [undefined], for
    [null] that of a read on [null], for any other value that of a call
    of what is no function; the world stays as it was. *)
Theorem testRoute_fails_on_bad_content (rt : Runtime) (request : Request)
    (w : World) (fields : list (string * Value)) (route : RoutingRule)
    (Hbody : body request = VObject fields)
    (Hcontent : forall s, lookup "content" fields <> VString s)
    (Hfound : find (whereIdUser (paramId request) (user request))
                   (routingRule w) = Some route) :
  serve rt (testRoute request) w
  = (mkReply 500
       (VObject
          [("error", VBool true);
           ("message",
            VString
              match lookup "content" fields with
              | VUndefined =>
                  "Cannot read properties of undefined (reading 'toLowerCase')"
              | VNull =>
                  "Cannot read properties of null (reading 'toLowerCase')"
              | _ => "content.toLowerCase is not a function"
              end);
           ("code", VString "INTERNAL_ERROR")]),
     w).
Proof.
  unfold serve, testRoute, bind, destructure, routingRule_findFirst,
    checkConditionsOn.
  rewrite Hbody. simpl. rewrite Hfound.
  destruct (lookup "content" fields) as [| | | |s| |] eqn:Hc;
    try reflexivity.
  now destruct (Hcontent s).
Qed.

Lemma testRoute_fails_on_bad_content_witness :
  let rt := Webhooks.sampleRuntime Webhooks.unreachable in
  let mine := mkRoutingRule "r1" "u1" "Mine" [] (VArray []) 0 true 0 0 in
  let w := mkWorld [mine] [] [] in
  let missing := mkRequest "u1" "r1" (VObject [("text", VString "hi")]) in
  let number := mkRequest "u1" "r1" (VObject [("content", VNumber 5)]) in
  (forall s, lookup "content" [("text", VString "hi")] <> VString s)
  /\ (forall s, lookup "content" [("content", VNumber 5)] <> VString s)
  /\ find (whereIdUser "r1" "u1") (routingRule w) = Some mine
  /\ serve rt (testRoute missing) w
     = (mkReply 500
          (VObject
             [("error", VBool true);
              ("message",
               VString
                 "Cannot read properties of undefined (reading 'toLowerCase')");
              ("code", VString "INTERNAL_ERROR")]),
        w)
  /\ serve rt (testRoute number) w
     = (mkReply 500
          (VObject
             [("error", VBool true);
              ("message", VString "content.toLowerCase is not a function");
              ("code", VString "INTERNAL_ERROR")]),
        w).
Proof.
  intros rt mine w missing number.
  assert (Hm : forall s, lookup "content" [("text", VString "hi")]
                         <> VString s) by (intros s; discriminate).
  assert (Hn : forall s, lookup "content" [("content", VNumber 5)]
                         <> VString s) by (intros s; discriminate).
  split; [exact Hm|]. split; [exact Hn|]. split; [reflexivity|]. split.
  - exact (testRoute_fails_on_bad_content rt missing w
             [("text", VString "hi")] mine eq_refl Hm eq_refl).
  - exact (testRoute_fails_on_bad_content rt number w
             [("content", VNumber 5)] mine eq_refl Hn eq_refl).
Defined.

End TestRouteKept.

(** ** The stored keys *)

Module ProviderKeyFacts.
Import Str Js ProviderKeys.

Lemma filter_redacted (keep : ApiKey -> bool) t t' :
  (forall k, keep (redacted k) = keep k) ->
  map redacted t = map redacted t' ->
  map redacted (filter keep t) = map redacted (filter keep t').
Proof.
  intros Hkeep. revert t'.
  induction t as [|k t IH]; intros [|k' t'] H; try discriminate;
    [reflexivity|].
  pose proof (f_equal (hd (redacted k)) H) as Hk.
  pose proof (f_equal (@tl ApiKey) H) as Ht.
  cbn [map hd tl] in Hk, Ht. cbn [filter].
  rewrite <- (Hkeep k), <- (Hkeep k'), Hk.
  destruct (keep (redacted k')); cbn [map]; rewrite ?Hk, (IH _ Ht);
    reflexivity.
Qed.

Lemma selected_redacted k : selected (redacted k) = selected k.
Proof. reflexivity. Qed.

Lemma map_selected t t' :
  map redacted t = map redacted t' -> map selected t = map selected t'.
Proof.
  intros H. apply (f_equal (map selected)) in H.
  rewrite !map_map in H.
  now rewrite (map_ext _ _ selected_redacted) in H.
Qed.

(** X28: a stored key never comes back. What the three key routes
    answer is the same on two tables that differ only in the keys they
    hold, and the rows they leave differ only in those keys again: no
    reply shows a stored key, to its owner or to anyone. *)
Theorem stored_keys_are_never_returned (id : string) (request : Request)
    (t t' : list ApiKey)
    (Hsame : map redacted t = map redacted t') :
  configured request t = configured request t'
  /\ fst (addProvider id request t) = fst (addProvider id request t')
  /\ map redacted (snd (addProvider id request t))
     = map redacted (snd (addProvider id request t'))
  /\ fst (deleteProvider request t) = fst (deleteProvider request t')
  /\ map redacted (snd (deleteProvider request t))
     = map redacted (snd (deleteProvider request t')).
Proof.
  repeat split.
  - unfold configured.
    rewrite (map_selected _ _
               (filter_redacted
                  (fun k => (keyUserId k =? user request)%string) t t'
                  (fun k => eq_refl) Hsame)).
    reflexivity.
  - unfold addProvider.
    now destruct (addProviderSchema (body request)) as [|[[p k] l]].
  - unfold addProvider.
    destruct (addProviderSchema (body request)) as [|[[p k] l]];
      simpl; [exact Hsame|].
    now rewrite !map_app, Hsame.
  - simpl. apply filter_redacted; [intros k; reflexivity | exact Hsame].
Qed.

Lemma stored_keys_are_never_returned_witness :
  let request := mkRequest "u1" "k1" VUndefined in
  let t := [mkApiKey "k1" "u1" "openai" "sk-secret" "work"] in
  let t' := [mkApiKey "k1" "u1" "openai" "sk-other" "work"] in
  map redacted t = map redacted t'
  /\ configured request t = configured request t'.
Proof.
  intros request t t'. split; [reflexivity|].
  exact (proj1 (stored_keys_are_never_returned "k2" request t t' eq_refl)).
Defined.



End ProviderKeyFacts.
